(** * Error-rule detection engine (src/lib/error-rule-detector.ts)

    A shallow embedding of the [ErrorRuleDetector] class: its three rule
    indices, the reload protocol, lazy initialisation and the two detection
    entry points, followed by the properties proved about them.

    Strings are sequences of code units in the range U+0000..U+00FF
    (Rocq's [ascii] read as Latin-1); [toLowerCase], [trim] and [includes]
    are the JavaScript string methods on that range.  The [safe-regex]
    screen and the [RegExp] constructor are libraries outside the
    repository: they are parameters of the development. *)

From stdpp Require Import gmap strings list fin_maps.
From Stdlib Require Import ZArith Ascii String.

Local Open Scope string_scope.

(** ** JavaScript string methods *)

Module JsString.

(** [String.prototype.toLowerCase] on one Latin-1 code unit: A-Z and
    U+00C0..U+00DE (except the multiplication sign U+00D7) move up by 32. *)
Definition lowerUnit (c : ascii) : ascii :=
  let n := N_of_ascii c in
  if ((65 <=? n) && (n <=? 90) ||
      (192 <=? n) && (n <=? 222) && negb (n =? 215))%N
  then ascii_of_N (n + 32) else c.

Fixpoint toLowerCase (s : string) : string :=
  match s with
  | EmptyString => EmptyString
  | String c s' => String (lowerUnit c) (toLowerCase s')
  end.

(** White space and line terminators stripped by [trim]:
    TAB, LF, VT, FF, CR, SPACE and NBSP. *)
Definition isWhiteSpace (c : ascii) : bool :=
  let n := N_of_ascii c in
  ((9 <=? n) && (n <=? 13) || (n =? 32) || (n =? 160))%N.

Fixpoint trimStart (s : string) : string :=
  match s with
  | EmptyString => EmptyString
  | String c s' => if isWhiteSpace c then trimStart s' else s
  end.

Fixpoint trimEnd (s : string) : string :=
  match s with
  | EmptyString => EmptyString
  | String c s' =>
      match trimEnd s' with
      | EmptyString => if isWhiteSpace c then EmptyString else String c EmptyString
      | t => String c t
      end
  end.

Definition trim (s : string) : string := trimEnd (trimStart s).

(** [s.startsWith(t)] *)
Fixpoint startsWith (s t : string) : bool :=
  match t, s with
  | EmptyString, _ => true
  | String _ _, EmptyString => false
  | String b t', String a s' => if decide (a = b) then startsWith s' t' else false
  end.

(** [s.includes(t)] *)
Fixpoint includes (s t : string) : bool :=
  startsWith s t ||
  match s with
  | EmptyString => false
  | String _ s' => includes s' t
  end.

(** The first, respectively last, code unit is white space. *)
Definition startsWithWhiteSpace (s : string) : bool :=
  match s with
  | EmptyString => false
  | String c _ => isWhiteSpace c
  end.

Fixpoint endsWithWhiteSpace (s : string) : bool :=
  match s with
  | EmptyString => false
  | String c EmptyString => isWhiteSpace c
  | String _ s' => endsWithWhiteSpace s'
  end.

End JsString.

Import JsString.

(** ** Data model *)

(** A row of the rule store, as returned by [getActiveErrorRules()].
    [matchType] is kept as the string the [switch] of [reload] inspects. *)
Module ErrorRule.
Record t := mk {
  pattern : string;
  category : string;
  matchType : string;
  description : option string;
}.
End ErrorRule.

(** A compiled [RegExp] object (flags ["i"]: no [lastIndex] state). *)
Record RegExp := {
  source : string;
  test : string -> bool;
}.

Module RegexPattern.
Record t := mk {
  pattern : RegExp;
  category : string;
  description : option string;
}.
End RegexPattern.

Module ContainsPattern.
Record t := mk {
  text : string;
  category : string;
  description : option string;
}.
End ContainsPattern.

Module ExactPattern.
Record t := mk {
  text : string;
  category : string;
  description : option string;
}.
End ExactPattern.

(** [ErrorDetectionResult]: the three optional fields are [None] when the
    property is absent from the object literal. *)
Record ErrorDetectionResult := {
  matched : bool;
  category : option string;
  pattern : option string;
  matchType : option string;
}.

(** The private fields of the class. *)
Record ErrorRuleDetector := {
  regexPatterns : list RegexPattern.t;
  containsPatterns : list ContainsPattern.t;
  exactPatterns : gmap string ExactPattern.t;
  lastReloadTime : Z;
  isLoading : bool;
  isInitialized : bool;
}.

(** The value of a freshly constructed detector. *)
Definition newDetector : ErrorRuleDetector :=
  {| regexPatterns := [];
     containsPatterns := [];
     exactPatterns := ∅;
     lastReloadTime := 0;
     isLoading := false;
     isInitialized := false |}.

(** ** Detection *)

(** [{ matched: false }] *)
Definition notMatched : ErrorDetectionResult :=
  {| matched := false; category := None; pattern := None; matchType := None |}.

(** [!errorMessage || errorMessage.length === 0]; [None] stands for a
    [null] or [undefined] argument. *)
Definition isBlank (errorMessage : option string) : bool :=
  match errorMessage with
  | None => true
  | Some s => match s with EmptyString => true | _ => Nat.eqb (String.length s) 0 end
  end.

(** The argument as a string once the guard has been passed. *)
Definition messageText (errorMessage : option string) : string :=
  default EmptyString errorMessage.

(** The containment loop: [for (const pattern of this.containsPatterns)]
    with its early [return]. [None] means the loop ran to its end. *)
Fixpoint containsLoop (lowerMessage : string) (ps : list ContainsPattern.t)
  : option ErrorDetectionResult :=
  match ps with
  | [] => None
  | p :: rest =>
      if includes lowerMessage (ContainsPattern.text p)
      then Some {| matched := true;
                   category := Some (ContainsPattern.category p);
                   pattern := Some (ContainsPattern.text p);
                   matchType := Some "contains" |}
      else containsLoop lowerMessage rest
  end.

(** The regex loop: [for (const { pattern, category } of this.regexPatterns)]. *)
Fixpoint regexLoop (errorMessage : string) (ps : list RegexPattern.t)
  : option ErrorDetectionResult :=
  match ps with
  | [] => None
  | p :: rest =>
      if test (RegexPattern.pattern p) errorMessage
      then Some {| matched := true;
                   category := Some (RegexPattern.category p);
                   pattern := Some (source (RegexPattern.pattern p));
                   matchType := Some "regex" |}
      else regexLoop errorMessage rest
  end.

(** Lines 221-259: the body of [detectAsync] after the initialisation wait. *)
Definition detectAsync_body (d : ErrorRuleDetector) (errorMessage : string)
  : ErrorDetectionResult :=
  let lowerMessage := toLowerCase errorMessage in
  let trimmedMessage := trim lowerMessage in
  match containsLoop lowerMessage (containsPatterns d) with
  | Some r => r
  | None =>
      match exactPatterns d !! trimmedMessage with
      | Some exactMatch =>
          {| matched := true;
             category := Some (ExactPattern.category exactMatch);
             pattern := Some (ExactPattern.text exactMatch);
             matchType := Some "exact" |}
      | None =>
          match regexLoop errorMessage (regexPatterns d) with
          | Some r => r
          | None => notMatched
          end
      end
  end.

(** Lines 277-315: the body of the synchronous [detect] past its guards. *)
Definition detect_body (d : ErrorRuleDetector) (errorMessage : string)
  : ErrorDetectionResult :=
  let lowerMessage := toLowerCase errorMessage in
  let trimmedMessage := trim lowerMessage in
  match containsLoop lowerMessage (containsPatterns d) with
  | Some r => r
  | None =>
      match exactPatterns d !! trimmedMessage with
      | Some exactMatch =>
          {| matched := true;
             category := Some (ExactPattern.category exactMatch);
             pattern := Some (ExactPattern.text exactMatch);
             matchType := Some "exact" |}
      | None =>
          match regexLoop errorMessage (regexPatterns d) with
          | Some r => r
          | None => notMatched
          end
      end
  end.

(** [getStats()] *)
Record Stats := {
  regexCount : nat;
  containsCount : nat;
  exactCount : nat;
  totalCount : nat;
  stats_lastReloadTime : Z;
  stats_isLoading : bool;
}.

Definition getStats (d : ErrorRuleDetector) : Stats :=
  {| regexCount := List.length (regexPatterns d);
     containsCount := List.length (containsPatterns d);
     exactCount := size (exactPatterns d);
     totalCount := List.length (regexPatterns d) + List.length (containsPatterns d)
                   + size (exactPatterns d);
     stats_lastReloadTime := lastReloadTime d;
     stats_isLoading := isLoading d |}.

(** [isEmpty()] *)
Definition isEmpty (d : ErrorRuleDetector) : bool :=
  Nat.eqb (List.length (regexPatterns d)) 0
  && Nat.eqb (List.length (containsPatterns d)) 0
  && Nat.eqb (size (exactPatterns d)) 0.

(** ** Asynchronous calls

    [reload], [ensureInitialized] and [detectAsync] are [async] functions.
    Each runs without interruption up to its next [await] on something that
    is not yet settled; there it is parked as a [Task] and other calls may
    run.  When an awaited inner call settles, the code after the [await]
    runs in the same turn (JavaScript schedules it as a microtask, before
    any timer or I/O callback).  A task records who is waiting for it. *)

Inductive LogEntry :=
| Warn_ReloadInProgress                       (* line 107 *)
| Info_Reloading                              (* line 114 *)
| Warn_RedosRisk (pattern : string)           (* line 153 *)
| Error_InvalidRegex (pattern : string)       (* line 168 *)
| Warn_UnknownMatchType (matchType : string)  (* line 174 *)
| Info_Loaded (total contains exact regex skipped : nat)  (* line 181 *)
| Warn_TableNotFound                          (* line 190 *)
| Error_ReloadFailed (error : string)         (* line 195 *)
| Error_ReloadOnEvent (error : string)        (* line 75 *)
| Error_InitDuringDetect (error : string).    (* line 267 *)

(** Who called [ensureInitialized]: the synchronous [detect], which does
    not wait for it, or [detectAsync] with its message. *)
Inductive EnsureCaller :=
| ByDetect
| ByDetectAsync (errorMessage : string).

(** Who called [reload]: the [errorRulesUpdated] listener, a user of the
    exported singleton, or [ensureInitialized]. *)
Inductive ReloadCaller :=
| ByEvent
| ByApi
| ByEnsure (caller : EnsureCaller).

Inductive Task :=
| AwaitingRules (caller : ReloadCaller)   (* reload, at line 116 *)
| Polling (caller : EnsureCaller).        (* ensureInitialized, at line 93 *)

Record World := {
  detector : ErrorRuleDetector;   (* the singleton [errorRuleDetector] *)
  pending : list Task;            (* parked calls *)
  storeFetches : nat;             (* calls of [getActiveErrorRules()] so far *)
  logged : list LogEntry;         (* what went to the logger, oldest first *)
}.

(** What [await getActiveErrorRules()] yields: the rows, or the message of
    the error it raised ([error.message], or [String(error)]). *)
Inductive FetchResult :=
| Rules (rules : list ErrorRule.t)
| Failed (errorMessage : string).

(** How a block of statements ends. *)
Inductive Completion (A : Type) :=
| Normal (a : A)
| Throw (error : string) (a : A).
Arguments Normal {A} a.
Arguments Throw {A} error a.

(** How far a call of an [async] function has come. *)
Inductive Outcome (A : Type) :=
| Resolved (a : A) (w : World)
| Rejected (error : string) (w : World)
| Suspended (w : World).
Arguments Resolved {A} a w.
Arguments Rejected {A} error w.
Arguments Suspended {A} w.

Definition after {A : Type} (o : Outcome A) : World :=
  match o with
  | Resolved _ w => w
  | Rejected _ w => w
  | Suspended w => w
  end.

Definition withDetector (f : ErrorRuleDetector -> ErrorRuleDetector) (w : World) : World :=
  {| detector := f (detector w); pending := pending w;
     storeFetches := storeFetches w; logged := logged w |}.

Definition withPending (ts : list Task) (w : World) : World :=
  {| detector := detector w; pending := ts;
     storeFetches := storeFetches w; logged := logged w |}.

Definition park (t : Task) (w : World) : World :=
  withPending (pending w ++ [t]) w.

Definition log (e : LogEntry) (w : World) : World :=
  {| detector := detector w; pending := pending w;
     storeFetches := storeFetches w; logged := logged w ++ [e] |}.

Definition countFetch (w : World) : World :=
  {| detector := detector w; pending := pending w;
     storeFetches := S (storeFetches w); logged := logged w |}.

Definition setLoading (b : bool) (d : ErrorRuleDetector) : ErrorRuleDetector :=
  {| regexPatterns := regexPatterns d; containsPatterns := containsPatterns d;
     exactPatterns := exactPatterns d; lastReloadTime := lastReloadTime d;
     isLoading := b; isInitialized := isInitialized d |}.

Definition setInitialized (b : bool) (d : ErrorRuleDetector) : ErrorRuleDetector :=
  {| regexPatterns := regexPatterns d; containsPatterns := containsPatterns d;
     exactPatterns := exactPatterns d; lastReloadTime := lastReloadTime d;
     isLoading := isLoading d; isInitialized := b |}.

Definition setLastReloadTime (t : Z) (d : ErrorRuleDetector) : ErrorRuleDetector :=
  {| regexPatterns := regexPatterns d; containsPatterns := containsPatterns d;
     exactPatterns := exactPatterns d; lastReloadTime := t;
     isLoading := isLoading d; isInitialized := isInitialized d |}.

(** Lines 119-121. *)
Definition clearIndices (d : ErrorRuleDetector) : ErrorRuleDetector :=
  {| regexPatterns := []; containsPatterns := [];
     exactPatterns := ∅; lastReloadTime := lastReloadTime d;
     isLoading := isLoading d; isInitialized := isInitialized d |}.

Definition pushContains (p : ContainsPattern.t) (d : ErrorRuleDetector) : ErrorRuleDetector :=
  {| regexPatterns := regexPatterns d; containsPatterns := containsPatterns d ++ [p];
     exactPatterns := exactPatterns d; lastReloadTime := lastReloadTime d;
     isLoading := isLoading d; isInitialized := isInitialized d |}.

Definition setExact (k : string) (p : ExactPattern.t) (d : ErrorRuleDetector) : ErrorRuleDetector :=
  {| regexPatterns := regexPatterns d; containsPatterns := containsPatterns d;
     exactPatterns := <[k := p]> (exactPatterns d); lastReloadTime := lastReloadTime d;
     isLoading := isLoading d; isInitialized := isInitialized d |}.

Definition pushRegex (p : RegexPattern.t) (d : ErrorRuleDetector) : ErrorRuleDetector :=
  {| regexPatterns := regexPatterns d ++ [p]; containsPatterns := containsPatterns d;
     exactPatterns := exactPatterns d; lastReloadTime := lastReloadTime d;
     isLoading := isLoading d; isInitialized := isInitialized d |}.

(** The text searched for at line 189: relation, the table name between
    double quotes, does not exist. *)
Definition tableMissingText : string :=
  "relation " +:+ String (ascii_of_nat 34) "error_rules" +:+
  String (ascii_of_nat 34) " does not exist".

(** The state of the [for (const rule of rules)] loop: the world and the
    two local counters. *)
Record Loop := {
  loopWorld : World;
  validRegexCount : nat;
  skippedRedosCount : nat;
}.

Definition inLoop (f : World -> World) (st : Loop) : Loop :=
  {| loopWorld := f (loopWorld st);
     validRegexCount := validRegexCount st;
     skippedRedosCount := skippedRedosCount st |}.

(** A property of the value an [async] call resolves to, if it has. *)
Definition resolvesWith {A : Type} (P : A -> Prop) (o : Outcome A) : Prop :=
  match o with
  | Resolved a _ => P a
  | _ => True
  end.

(** ** A small pattern engine

    Used to run the model on concrete rule sets: a pattern is a literal
    text, found anywhere in the input without regard to case; a pattern
    with a quantified group that is itself quantified is refused by the
    screen, and one with an opening bracket does not compile. *)

Definition literalScreen (pattern : string) : bool :=
  negb (includes pattern "+)+").

Definition literalRegExp (pattern : string) : option RegExp :=
  if includes pattern "[" then None
  else Some {| source := pattern;
               test := fun s => includes (toLowerCase s) (toLowerCase pattern) |}.

(** Rule sets of the examples. *)
Definition rule (matchType pattern category : string) : ErrorRule.t :=
  ErrorRule.mk pattern category matchType None.

Definition memoryRules : list ErrorRule.t :=
  [rule "exact" "out of memory" "oom"].

Definition errorRules : list ErrorRule.t :=
  [rule "contains" "error" "generic"; rule "contains" "error: timeout" "timeout"].

Definition mixedRules : list ErrorRule.t :=
  [rule "regex" "(a+)+$" "slow"; rule "regex" "time" "timing";
   rule "regex" "[" "broken"; rule "contains" "Timeout" "timeout";
   rule "exact" "out of memory" "oom"; rule "glob" "*" "any"].


(** Entries and rules of the examples. *)
Definition timeoutEntry : ContainsPattern.t :=
  ContainsPattern.mk "timeout" "timeout" None.

Definition timingEntry : RegexPattern.t :=
  RegexPattern.mk
    {| source := "time";
       test := fun s => includes (toLowerCase s) (toLowerCase "time") |}
    "timing" None.



Definition nestedRule : ErrorRule.t := rule "regex" "(a+)+$" "slow".

Definition paddedRule : ErrorRule.t := rule "exact" "out of memory " "oom".

(** The object literals returned by the three tiers. *)
Definition containsResult (p : ContainsPattern.t) : ErrorDetectionResult :=
  {| matched := true;
     category := Some (ContainsPattern.category p);
     pattern := Some (ContainsPattern.text p);
     matchType := Some "contains" |}.

Definition exactResult (e : ExactPattern.t) : ErrorDetectionResult :=
  {| matched := true;
     category := Some (ExactPattern.category e);
     pattern := Some (ExactPattern.text e);
     matchType := Some "exact" |}.

Definition regexResult (p : RegexPattern.t) : ErrorDetectionResult :=
  {| matched := true;
     category := Some (RegexPattern.category p);
     pattern := Some (source (RegexPattern.pattern p));
     matchType := Some "regex" |}.

(** A result is well formed: a match carries the three fields and names
    one of the three tiers, a miss carries none of them. *)
Definition wellFormed (r : ErrorDetectionResult) : Prop :=
  if matched r then
    is_Some (category r) /\ is_Some (pattern r) /\
    (matchType r = Some "contains" \/ matchType r = Some "exact" \/
     matchType r = Some "regex")
  else category r = None /\ pattern r = None /\ matchType r = None.

Section Engine.

(** [safeRegex(pattern)] of the safe-regex package. *)
Variable safeRegex : string -> bool.

(** [new RegExp(pattern, "i")]; [None] when the constructor throws. *)
Variable newRegExp : string -> option RegExp.

(** Lines 151-166: the [try] block of the regex case. *)
Definition regexTry (rule : ErrorRule.t) (st : Loop) : Completion Loop :=
  if negb (safeRegex (ErrorRule.pattern rule)) then
    Normal {| loopWorld := log (Warn_RedosRisk (ErrorRule.pattern rule)) (loopWorld st);
              validRegexCount := validRegexCount st;
              skippedRedosCount := S (skippedRedosCount st) |}
  else
    match newRegExp (ErrorRule.pattern rule) with
    | None => Throw "SyntaxError" st
    | Some re =>
        Normal {| loopWorld :=
                    withDetector
                      (pushRegex (RegexPattern.mk re (ErrorRule.category rule)
                                    (ErrorRule.description rule)))
                      (loopWorld st);
                  validRegexCount := S (validRegexCount st);
                  skippedRedosCount := skippedRedosCount st |}
    end.

(** Lines 128-175: one iteration, the [switch] on [rule.matchType]. *)
Definition loadRule (st : Loop) (rule : ErrorRule.t) : Loop :=
  if String.eqb (ErrorRule.matchType rule) "contains" then
    let lowerText := toLowerCase (ErrorRule.pattern rule) in
    inLoop (withDetector
              (pushContains (ContainsPattern.mk lowerText (ErrorRule.category rule)
                               (ErrorRule.description rule)))) st
  else if String.eqb (ErrorRule.matchType rule) "exact" then
    let lowerText := toLowerCase (ErrorRule.pattern rule) in
    inLoop (withDetector
              (setExact lowerText
                 (ExactPattern.mk lowerText (ErrorRule.category rule)
                    (ErrorRule.description rule)))) st
  else if String.eqb (ErrorRule.matchType rule) "regex" then
    match regexTry rule st with
    | Normal st' => st'
    | Throw _ st' => inLoop (log (Error_InvalidRegex (ErrorRule.pattern rule))) st'
    end
  else
    inLoop (log (Warn_UnknownMatchType (ErrorRule.matchType rule))) st.

(** Lines 127-176: the whole loop. *)
Definition loadRules (rules : list ErrorRule.t) (st : Loop) : Loop :=
  fold_left loadRule rules st.

(** Lines 116-185: the [try] block of [reload] from the point where the
    awaited fetch settles; [now] is the value of [Date.now()]. *)
Definition reload_try (res : FetchResult) (now : Z) (w : World) : Completion World :=
  match res with
  | Failed e => Throw e w
  | Rules rules =>
      let w1 := withDetector clearIndices w in
      let st := loadRules rules
                  {| loopWorld := w1; validRegexCount := 0; skippedRedosCount := 0 |} in
      let w2 := withDetector (setLastReloadTime now) (loopWorld st) in
      let w3 := withDetector (setInitialized true) w2 in
      Normal (log (Info_Loaded (List.length rules)
                     (List.length (containsPatterns (detector w3)))
                     (size (exactPatterns (detector w3)))
                     (validRegexCount st) (skippedRedosCount st)) w3)
  end.

(** Lines 186-197: the [catch] block. *)
Definition reload_catch (errorMessage : string) (w : World) : Completion World :=
  if includes errorMessage tableMissingText
  then Normal (log Warn_TableNotFound w)
  else Normal (log (Error_ReloadFailed errorMessage) w).

(** Lines 198-200: the [finally] block. *)
Definition reload_finally (w : World) : World :=
  withDetector (setLoading false) w.

(** [reload] from the settled fetch to its end. *)
Definition reload_resumed (res : FetchResult) (now : Z) (w : World) : Completion World :=
  let c := match reload_try res now w with
           | Normal w' => Normal w'
           | Throw e w' => reload_catch e w'
           end in
  match c with
  | Normal w' => Normal (reload_finally w')
  | Throw e w' => Throw e (reload_finally w')
  end.

(** [reload()] from its call to its first suspension (lines 105-116). *)
Definition reload (caller : ReloadCaller) (w : World) : Outcome unit :=
  if isLoading (detector w) then
    Resolved tt (log Warn_ReloadInProgress w)
  else
    let w1 := withDetector (setLoading true) w in
    let w2 := log Info_Reloading w1 in
    Suspended (park (AwaitingRules caller) (countFetch w2)).

(** What the caller of [ensureInitialized] does once it has returned:
    [detect] ignores it, [detectAsync] runs lines 221-259. *)
Definition ensured (caller : EnsureCaller) (w : World)
  : Outcome (option ErrorDetectionResult) :=
  match caller with
  | ByDetect => Resolved None w
  | ByDetectAsync errorMessage =>
      Resolved (Some (detectAsync_body (detector w) errorMessage)) w
  end.

(** What the caller of [ensureInitialized] does when it has thrown: the
    [catch] handler of line 266, or the rejection of [detectAsync]. *)
Definition ensureFailed (caller : EnsureCaller) (e : string) (w : World)
  : Outcome (option ErrorDetectionResult) :=
  match caller with
  | ByDetect => Resolved None (log (Error_InitDuringDetect e) w)
  | ByDetectAsync _ => Rejected e w
  end.

(** [ensureInitialized()] from its call to its first suspension. *)
Definition ensureInitialized (caller : EnsureCaller) (w : World) : Outcome unit :=
  if isInitialized (detector w) then Resolved tt w
  else if isLoading (detector w) then Suspended (park (Polling caller) w)
  else
    match reload (ByEnsure caller) w with
    | Resolved _ w' => Resolved tt (withDetector (setInitialized true) w')
    | Rejected e w' => Rejected e w'
    | Suspended w' => Suspended w'
    end.

(** [detectAsync(errorMessage)] from its call to its first suspension. *)
Definition detectAsync (errorMessage : option string) (w : World)
  : Outcome ErrorDetectionResult :=
  if isBlank errorMessage then Resolved notMatched w
  else
    match ensureInitialized (ByDetectAsync (messageText errorMessage)) w with
    | Resolved _ w' =>
        Resolved (detectAsync_body (detector w') (messageText errorMessage)) w'
    | Rejected e w' => Rejected e w'
    | Suspended w' => Suspended w'
    end.

(** The synchronous [detect(errorMessage)]: its result and the world it
    leaves (it may have started the initialisation). *)
Definition detect (errorMessage : option string) (w : World)
  : World * ErrorDetectionResult :=
  if negb (isInitialized (detector w)) then
    let w' := match ensureInitialized ByDetect w with
              | Rejected e w' => log (Error_InitDuringDetect e) w'
              | o => after o
              end in
    (w', notMatched)
  else if isBlank errorMessage then (w, notMatched)
  else (w, detect_body (detector w) (messageText errorMessage)).

(** The fetch awaited by a parked [reload] settles: the rest of [reload]
    runs, then the code of whoever awaited it. The task itself has been
    taken out of [pending w]. *)
Definition rulesArrive (caller : ReloadCaller) (res : FetchResult) (now : Z) (w : World)
  : Outcome (option ErrorDetectionResult) :=
  match reload_resumed res now w, caller with
  | Normal w', ByEvent => Resolved None w'
  | Normal w', ByApi => Resolved None w'
  | Normal w', ByEnsure c => ensured c (withDetector (setInitialized true) w')
  | Throw e w', ByEvent => Resolved None (log (Error_ReloadOnEvent e) w')
  | Throw e w', ByApi => Rejected e w'
  | Throw e w', ByEnsure c => ensureFailed c e w'
  end.

(** The timer of a parked [ensureInitialized] fires: the [while] test of
    line 92 is evaluated again. *)
Definition timerFires (caller : EnsureCaller) (w : World)
  : Outcome (option ErrorDetectionResult) :=
  if isLoading (detector w) then Suspended (park (Polling caller) w)
  else ensured caller w.

(** What one rule of the store contributes to each index when it is
    loaded: an entry of the containment list, an entry of the regex list,
    a binding of the exact table, or nothing. *)
Definition containsEntry (rule : ErrorRule.t) : option ContainsPattern.t :=
  if String.eqb (ErrorRule.matchType rule) "contains"
  then Some (ContainsPattern.mk (toLowerCase (ErrorRule.pattern rule))
               (ErrorRule.category rule) (ErrorRule.description rule))
  else None.

Definition regexEntry (rule : ErrorRule.t) : option RegexPattern.t :=
  if String.eqb (ErrorRule.matchType rule) "regex" then
    if safeRegex (ErrorRule.pattern rule) then
      match newRegExp (ErrorRule.pattern rule) with
      | Some re => Some (RegexPattern.mk re (ErrorRule.category rule)
                           (ErrorRule.description rule))
      | None => None
      end
    else None
  else None.

Definition bindExact (m : gmap string ExactPattern.t) (rule : ErrorRule.t)
  : gmap string ExactPattern.t :=
  if String.eqb (ErrorRule.matchType rule) "exact"
  then <[toLowerCase (ErrorRule.pattern rule) :=
           ExactPattern.mk (toLowerCase (ErrorRule.pattern rule))
             (ErrorRule.category rule) (ErrorRule.description rule)]> m
  else m.

(** A regex rule the screen refuses. *)
Definition isRedosRule (rule : ErrorRule.t) : bool :=
  String.eqb (ErrorRule.matchType rule) "regex"
  && negb (safeRegex (ErrorRule.pattern rule)).

(** Every binding of the exact table sits under its own text. *)
Definition exactKeyed (d : ErrorRuleDetector) : Prop :=
  forall k e, exactPatterns d !! k = Some e -> ExactPattern.text e = k.

(** Nothing has been loaded into a detector that is not initialised. *)
Definition emptyUntilInitialized (d : ErrorRuleDetector) : Prop :=
  isInitialized d = false ->
  regexPatterns d = [] /\ containsPatterns d = [] /\ exactPatterns d = ∅.

(** One turn of the event loop. *)
Inductive Step : World -> World -> Prop :=
| Step_event w :
    Step w (after (reload ByEvent w))
| Step_reload w :
    Step w (after (reload ByApi w))
| Step_detect m w :
    Step w (fst (detect m w))
| Step_detectAsync m w :
    Step w (after (detectAsync m w))
| Step_rules w caller res now (before rest : list Task) :
    pending w = (before ++ AwaitingRules caller :: rest)%list ->
    Step w (after (rulesArrive caller res now (withPending (before ++ rest) w)))
| Step_timer w caller (before rest : list Task) :
    pending w = (before ++ Polling caller :: rest)%list ->
    Step w (after (timerFires caller (withPending (before ++ rest) w))).

(** The world right after the module is loaded. *)
Definition initialWorld : World :=
  {| detector := newDetector; pending := []; storeFetches := 0; logged := [] |}.

Inductive Reachable : World -> Prop :=
| Reachable_initial : Reachable initialWorld
| Reachable_step w w' : Reachable w -> Step w w' -> Reachable w'.

(** The number of fetches in flight: parked [reload] calls. *)
Definition isAwaitingRules (t : Task) : bool :=
  match t with
  | AwaitingRules _ => true
  | Polling _ => false
  end.

Definition fetchesInFlight (w : World) : nat :=
  List.length (List.filter isAwaitingRules (pending w)).


(** The world after the exported [reload()] has been called on [w] and its
    fetch has settled with [res] at time [now]. *)
Definition reloaded (res : FetchResult) (now : Z) (w : World) : World :=
  let w1 := after (reload ByApi w) in
  after (rulesArrive ByApi res now
           (withPending (List.filter (fun t => negb (isAwaitingRules t)) (pending w1)) w1)).

(** What a store fetch yields when the rules table has not been created. *)
Definition tableMissing : FetchResult :=
  Failed ("error: " +:+ tableMissingText).

(** A cold start in which a rule change is announced before any lookup:
    the listener starts a reload, a [detectAsync] call arrives and waits
    for it, and the fetch fails because the table is missing. *)
Definition coldEvent : World := after (reload ByEvent initialWorld).

Definition coldEventWaiting : World :=
  after (detectAsync (Some "timeout") coldEvent).

Definition coldEventFailed : World :=
  after (rulesArrive ByEvent tableMissing 0
           (withPending [Polling (ByDetectAsync "timeout")] coldEventWaiting)).

(** The detector a settled fetch leaves behind, in terms of the rules
    it delivered. *)
Definition settledDetector (res : FetchResult) (now : Z) (d : ErrorRuleDetector)
  : ErrorRuleDetector :=
  match res with
  | Rules rules =>
      {| regexPatterns := omap regexEntry rules;
         containsPatterns := omap containsEntry rules;
         exactPatterns := fold_left bindExact rules ∅;
         lastReloadTime := now;
         isLoading := false;
         isInitialized := true |}
  | Failed _ => setLoading false d
  end.

(** The invariant of the event loop. *)
Definition Invariant (w : World) : Prop :=
  fetchesInFlight w = (if isLoading (detector w) then 1 else 0) /\
  emptyUntilInitialized (detector w) /\
  exactKeyed (detector w).

(** Worlds of the examples: a fresh module whose first reload delivered
    the given rules at time 5. *)
Definition mixedWorld : World := reloaded (Rules mixedRules) 5 initialWorld.

Definition memoryWorld : World := reloaded (Rules memoryRules) 5 initialWorld.

(** ** Vocabulary of the further properties *)

(** Every code unit of the text is white space. *)
Fixpoint allWhiteSpace (s : string) : bool :=
  match s with
  | EmptyString => true
  | String c s' => isWhiteSpace c && allWhiteSpace s'
  end.

(** The number of fetched rules of one match type. *)
Definition countType (matchType : string) (rules : list ErrorRule.t) : nat :=
  List.length (List.filter (fun r => String.eqb (ErrorRule.matchType r) matchType) rules).

(** The four fields a reload rewrites. *)
Definition snapshot (d : ErrorRuleDetector)
  : list RegexPattern.t * list ContainsPattern.t * gmap string ExactPattern.t * Z :=
  (regexPatterns d, containsPatterns d, exactPatterns d, lastReloadTime d).

(** The log lines written by the two [catch] handlers of lines 74-76 and
    266-268. *)
Definition isHandlerLog (e : LogEntry) : bool :=
  match e with
  | Error_ReloadOnEvent _ | Error_InitDuringDetect _ => true
  | _ => false
  end.

(** The promise of the call has been rejected. *)
Definition rejects {A : Type} (o : Outcome A) : bool :=
  match o with
  | Rejected _ _ => true
  | _ => false
  end.

(** A call of one of the two detection entry points, and the world it
    leaves. *)
Inductive DetectCall :=
| Sync (errorMessage : option string)
| Async (errorMessage : option string).

Definition runCall (w : World) (c : DetectCall) : World :=
  match c with
  | Sync m => fst (detect m w)
  | Async m => after (detectAsync m w)
  end.

Definition runCalls (cs : list DetectCall) (w : World) : World :=
  fold_left runCall cs w.

(** The call reaches [ensureInitialized]: every [detect], and a
    [detectAsync] whose message is not blank. *)
Definition reachesEnsure (c : DetectCall) : bool :=
  match c with
  | Sync _ => true
  | Async m => negb (isBlank m)
  end.

(** The entry an exact rule leaves in the table. *)
Definition exactEntryOf (r : ErrorRule.t) : ExactPattern.t :=
  ExactPattern.mk (toLowerCase (ErrorRule.pattern r)) (ErrorRule.category r)
    (ErrorRule.description r).

(** The log of [w'] is the log of [w] followed by lines that no [catch]
    handler wrote. *)
Definition extendsLog (w w' : World) : Prop :=
  exists l, logged w' = (logged w ++ l)%list /\
            forallb (fun e => negb (isHandlerLog e)) l = true.

(** A turn that leaves the snapshot alone: the four fields a reload
    rewrites are kept, the initialised flag is not lowered, at most one
    fetch is issued and the log is extended. *)
Definition quiet (w w' : World) : Prop :=
  snapshot (detector w') = snapshot (detector w) /\
  (isInitialized (detector w) = true -> isInitialized (detector w') = true) /\
  storeFetches w <= storeFetches w' <= S (storeFetches w) /\
  extendsLog w w'.

(** The turns of the event loop by name: who acts, with what input. *)
Inductive Turn :=
| EventTurn                                   (* errorRulesUpdated is emitted *)
| ReloadTurn                                  (* the exported reload() is called *)
| DetectTurn (errorMessage : option string)
| DetectAsyncTurn (errorMessage : option string)
| SettleTurn (caller : ReloadCaller) (res : FetchResult) (now : Z)
| TimerTurn (caller : EnsureCaller).

(** [Step], with the turn that is taken. *)
Inductive TurnStep : World -> Turn -> World -> Prop :=
| TurnStep_event w :
    TurnStep w EventTurn (after (reload ByEvent w))
| TurnStep_reload w :
    TurnStep w ReloadTurn (after (reload ByApi w))
| TurnStep_detect m w :
    TurnStep w (DetectTurn m) (fst (detect m w))
| TurnStep_detectAsync m w :
    TurnStep w (DetectAsyncTurn m) (after (detectAsync m w))
| TurnStep_rules w caller res now (before rest : list Task) :
    pending w = (before ++ AwaitingRules caller :: rest)%list ->
    TurnStep w (SettleTurn caller res now)
      (after (rulesArrive caller res now (withPending (before ++ rest) w)))
| TurnStep_timer w caller (before rest : list Task) :
    pending w = (before ++ Polling caller :: rest)%list ->
    TurnStep w (TimerTurn caller)
      (after (timerFires caller (withPending (before ++ rest) w))).

(** A run of the event loop and the turns it takes, in order. *)
Inductive Run : World -> list Turn -> World -> Prop :=
| Run_nil w : Run w [] w
| Run_cons w t w' ts w'' : TurnStep w t w' -> Run w' ts w'' -> Run w (t :: ts) w''.

(** The turns that raise the initialised flag: the settlement of a fetch
    that delivered rules (line 179), and the settlement of any fetch of a
    reload that [ensureInitialized] started (line 99). *)
Definition raisesFlag (t : Turn) : bool :=
  match t with
  | SettleTurn _ (Rules _) _ => true
  | SettleTurn (ByEnsure _) (Failed _) _ => true
  | _ => false
  end.

(** The reload in progress was started by [ensureInitialized]. *)
Definition ensureStartedReload (w : World) : Prop :=
  exists k, In (AwaitingRules (ByEnsure k)) (pending w).

(** A cold start in which the first lookup is a [detectAsync], which
    starts the load itself, and a second one arrives and waits for it. *)
Definition coldLookup : World := after (detectAsync (Some "timeout") initialWorld).

Definition coldLookupWaiting : World :=
  after (detectAsync (Some "quota") coldLookup).

(** Rule sets of the further examples. *)
Definition duplicateRules : list ErrorRule.t :=
  [rule "exact" "Out Of Memory" "first"; rule "contains" "quota" "limits";
   rule "exact" "out of MEMORY" "second"].

Definition catchAllRules : list ErrorRule.t :=
  [rule "contains" "quota" "limits"; rule "contains" "" "anything";
   rule "exact" "out of memory" "oom"].

(** * Properties *)

(** ** Strings *)

Example toLowerCase_mixed : toLowerCase "Out Of MEMORY: 42%" = "out of memory: 42%".
Proof. reflexivity. Qed.

Example trim_both_ends :
  trim (String (ascii_of_nat 9) "  a b " +:+ String (ascii_of_nat 10) EmptyString) = "a b".
Proof. reflexivity. Qed.

Example trim_blank : trim "   " = EmptyString.
Proof. reflexivity. Qed.

Example includes_inside : includes "connection timeout occurred" "timeout" = true.
Proof. reflexivity. Qed.

Example includes_empty : includes "abc" EmptyString = true.
Proof. reflexivity. Qed.

Example includes_longer : includes "out of memory" "out of memory error" = false.
Proof. reflexivity. Qed.

Example tableMissing_recognised :
  includes "error: relation does not exist" tableMissingText = false /\
  match tableMissing with
  | Failed e => includes e tableMissingText = true
  | Rules _ => False
  end.
Proof. split; reflexivity. Qed.

Lemma lowerUnit_isWhiteSpace c : isWhiteSpace (lowerUnit c) = isWhiteSpace c.
Proof. destruct c as [[] [] [] [] [] [] [] []]; reflexivity. Qed.

Lemma toLowerCase_startsWithWhiteSpace s :
startsWithWhiteSpace (toLowerCase s) = startsWithWhiteSpace s.
Proof. destruct s as [|c s]; simpl; [reflexivity | apply lowerUnit_isWhiteSpace]. Qed.

Lemma toLowerCase_endsWithWhiteSpace s :
endsWithWhiteSpace (toLowerCase s) = endsWithWhiteSpace s.
Proof.
induction s as [|c s IH]; [reflexivity|].
destruct s as [|c' s]; simpl in *.
- apply lowerUnit_isWhiteSpace.
- exact IH.
Qed.

Lemma trimStart_clean s : startsWithWhiteSpace (trimStart s) = false.
Proof.
induction s as [|c s IH]; simpl; [reflexivity|].
destruct (isWhiteSpace c) eqn:E; [exact IH | simpl; exact E].
Qed.

Lemma trimEnd_clean s : endsWithWhiteSpace (trimEnd s) = false.
Proof.
induction s as [|c s IH]; simpl; [reflexivity|].
destruct (trimEnd s) as [|c' t] eqn:E.
- destruct (isWhiteSpace c) eqn:W; simpl; [reflexivity | exact W].
- exact IH.
Qed.

Lemma trimEnd_keeps_start s :
startsWithWhiteSpace s = false -> startsWithWhiteSpace (trimEnd s) = false.
Proof.
destruct s as [|c s]; simpl; [reflexivity|]. intros W.
destruct (trimEnd s); [rewrite W|]; simpl; exact W.
Qed.

Lemma trim_clean s :
startsWithWhiteSpace (trim s) = false /\ endsWithWhiteSpace (trim s) = false.
Proof.
unfold trim. split.
- apply trimEnd_keeps_start, trimStart_clean.
- apply trimEnd_clean.
Qed.

(** A lowercased pattern with white space at either end is never the key
  looked up by the exact tier. *)
Lemma trimmed_lookup_misses (pattern message : string) :
startsWithWhiteSpace pattern || endsWithWhiteSpace pattern = true ->
trim (toLowerCase message) <> toLowerCase pattern.
Proof.
intros H E.
destruct (trim_clean (toLowerCase message)) as [Hs He].
rewrite E, toLowerCase_startsWithWhiteSpace in Hs.
rewrite E, toLowerCase_endsWithWhiteSpace in He.
rewrite Hs, He in H. discriminate.
Qed.

Lemma isBlank_false m : isBlank m = false -> exists s, m = Some s /\ s <> EmptyString.
Proof.
destruct m as [[|c s]|]; simpl; try discriminate.
intros _. exists (String c s). split; [reflexivity | discriminate].
Qed.

Lemma isBlank_Some s : s <> EmptyString -> isBlank (Some s) = false.
Proof. destruct s; [congruence | reflexivity]. Qed.

(** ** The detection body *)

Lemma detect_body_eq d m : detect_body d m = detectAsync_body d m.
Proof. reflexivity. Qed.


Lemma containsLoop_None lower (ps : list ContainsPattern.t) :
containsLoop lower ps = None <->
Forall (fun q => includes lower (ContainsPattern.text q) = false) ps.
Proof.
induction ps as [|q ps IH]; simpl.
- split; [constructor | reflexivity].
- destruct (includes lower (ContainsPattern.text q)) eqn:E.
  + split; [discriminate | inversion 1; congruence].
  + rewrite IH. split; [constructor; assumption | inversion 1; assumption].
Qed.

Lemma containsLoop_Some lower (ps : list ContainsPattern.t) r :
containsLoop lower ps = Some r ->
exists before p rest,
  ps = (before ++ p :: rest)%list /\ r = containsResult p /\
  includes lower (ContainsPattern.text p) = true /\
  Forall (fun q => includes lower (ContainsPattern.text q) = false) before.
Proof.
induction ps as [|q ps IH]; simpl; [discriminate|].
destruct (includes lower (ContainsPattern.text q)) eqn:E.
- intros [= <-]. exists [], q, ps. repeat split; auto.
- intros H. destruct (IH H) as (b & p & t & -> & -> & Hp & Hb).
  exists (q :: b), p, t. repeat split; auto.
Qed.


Lemma regexLoop_Some msg (ps : list RegexPattern.t) r :
regexLoop msg ps = Some r ->
exists p, In p ps /\ r = regexResult p /\ test (RegexPattern.pattern p) msg = true.
Proof.
induction ps as [|q ps IH]; simpl; [discriminate|].
destruct (test (RegexPattern.pattern q) msg) eqn:E.
- intros [= <-]. exists q. auto.
- intros H. destruct (IH H) as (p & Hin & -> & Hp). exists p. auto.
Qed.

Lemma detectAsync_body_wellFormed d m : wellFormed (detectAsync_body d m).
Proof.
unfold detectAsync_body.
destruct (containsLoop _ _) as [r|] eqn:Ec.
{ apply containsLoop_Some in Ec as (b & p & t & _ & -> & _).
  unfold wellFormed; simpl; eauto 6. }
destruct (exactPatterns d !! _) as [e|].
{ unfold wellFormed; simpl; eauto 6. }
destruct (regexLoop _ _) as [r|] eqn:Er.
{ apply regexLoop_Some in Er as (p & _ & -> & _).
  unfold wellFormed; simpl; eauto 6. }
unfold wellFormed; simpl; auto.
Qed.

(** ** Loading rules *)

(** Splits the [switch] of [loadRule] into its cases. *)
Ltac load_cases rule :=
  unfold loadRule, regexTry, containsEntry, regexEntry, bindExact, isRedosRule;
  let E := fresh "E" in
  destruct (String.eqb_spec (ErrorRule.matchType rule) "contains") as [E|?];
  [ try rewrite E
  | destruct (String.eqb_spec (ErrorRule.matchType rule) "exact") as [E|?];
    [ try rewrite E
    | destruct (String.eqb_spec (ErrorRule.matchType rule) "regex") as [E|?];
      [ destruct (safeRegex (ErrorRule.pattern rule)) eqn:?;
        [ destruct (newRegExp (ErrorRule.pattern rule)) eqn:? |] |]]];
  simpl.

Lemma loadRule_detector st rule :
  let d := detector (loopWorld st) in
  detector (loopWorld (loadRule st rule)) =
    {| regexPatterns := regexPatterns d ++ option_list (regexEntry rule);
       containsPatterns := containsPatterns d ++ option_list (containsEntry rule);
       exactPatterns := bindExact (exactPatterns d) rule;
       lastReloadTime := lastReloadTime d;
       isLoading := isLoading d;
       isInitialized := isInitialized d |}.
Proof.
  destruct st as [[[] ? ? ?] ? ?]. load_cases rule;
    rewrite ?app_nil_r; reflexivity.
Qed.

Lemma loadRule_world st rule :
  pending (loopWorld (loadRule st rule)) = pending (loopWorld st) /\
  storeFetches (loopWorld (loadRule st rule)) = storeFetches (loopWorld st).
Proof. load_cases rule; auto. Qed.

Lemma loadRule_counts st rule :
  validRegexCount (loadRule st rule) =
    validRegexCount st + List.length (option_list (regexEntry rule)) /\
  skippedRedosCount (loadRule st rule) =
    skippedRedosCount st + (if isRedosRule rule then 1 else 0).
Proof. load_cases rule; lia. Qed.

Lemma loadRules_detector rules : forall st,
  let d := detector (loopWorld st) in
  detector (loopWorld (loadRules rules st)) =
    {| regexPatterns := regexPatterns d ++ omap regexEntry rules;
       containsPatterns := containsPatterns d ++ omap containsEntry rules;
       exactPatterns := fold_left bindExact rules (exactPatterns d);
       lastReloadTime := lastReloadTime d;
       isLoading := isLoading d;
       isInitialized := isInitialized d |}.
Proof.
  induction rules as [|rule rules IH]; intros st; simpl.
  - rewrite !app_nil_r. destruct (detector (loopWorld st)); reflexivity.
  - unfold loadRules in *. simpl. rewrite IH, loadRule_detector. simpl.
    f_equal.
    + destruct (regexEntry rule); simpl; rewrite <- ?app_assoc; reflexivity.
    + destruct (containsEntry rule); simpl; rewrite <- ?app_assoc; reflexivity.
Qed.

Lemma loadRules_world rules : forall st,
  pending (loopWorld (loadRules rules st)) = pending (loopWorld st) /\
  storeFetches (loopWorld (loadRules rules st)) = storeFetches (loopWorld st).
Proof.
  induction rules as [|rule rules IH]; intros st; [auto|].
  unfold loadRules in *. simpl.
  destruct (IH (loadRule st rule)) as [-> ->]. apply loadRule_world.
Qed.

Lemma loadRules_counts rules : forall st,
  validRegexCount (loadRules rules st) =
    validRegexCount st + List.length (omap regexEntry rules) /\
  skippedRedosCount (loadRules rules st) =
    skippedRedosCount st + List.length (List.filter isRedosRule rules).
Proof.
  induction rules as [|rule rules IH]; intros st; simpl; [lia|].
  unfold loadRules in *. simpl.
  destruct (IH (loadRule st rule)) as [-> ->].
  destruct (loadRule_counts st rule) as [-> ->].
  destruct (regexEntry rule), (isRedosRule rule); simpl; unfold omap; lia.
Qed.

Lemma bindExact_keyed rules : forall m,
  (forall k e, m !! k = Some e -> ExactPattern.text e = k) ->
  forall k e, fold_left bindExact rules m !! k = Some e -> ExactPattern.text e = k.
Proof.
  induction rules as [|rule rules IH]; intros m Hm; simpl; [exact Hm|].
  apply IH. intros k e. unfold bindExact.
  destruct (String.eqb _ _); [|apply Hm].
  rewrite lookup_insert. case_decide; [|apply Hm].
  intros [= <-]. simpl. assumption.
Qed.

(** ** The reload protocol *)

Lemma reload_resumed_settles res now w :
  exists w',
    reload_resumed res now w = Normal w' /\
    detector w' = settledDetector res now (detector w) /\
    pending w' = pending w /\
    storeFetches w' = storeFetches w.
Proof.
  unfold reload_resumed, reload_try. destruct res as [rules|e].
  - eexists. split; [reflexivity|]. simpl.
    rewrite loadRules_detector.
    destruct (loadRules_world rules
                {| loopWorld := withDetector clearIndices w;
                   validRegexCount := 0; skippedRedosCount := 0 |}) as [Hp Hf].
    simpl in *. auto.
  - unfold reload_catch. destruct (includes e tableMissingText);
      eexists; (split; [reflexivity|]); simpl; auto.
Qed.

Lemma rulesArrive_settles caller res now w :
  exists r w',
    rulesArrive caller res now w = Resolved r w' /\
    detector w' =
      match caller with
      | ByEnsure _ => setInitialized true (settledDetector res now (detector w))
      | _ => settledDetector res now (detector w)
      end /\
    r = match caller with
        | ByEnsure (ByDetectAsync m) => Some (detectAsync_body (detector w') m)
        | _ => None
        end /\
    pending w' = pending w /\
    storeFetches w' = storeFetches w.
Proof.
  unfold rulesArrive.
  destruct (reload_resumed_settles res now w) as (w' & -> & Hd & Hp & Hf).
  destruct caller as [| |[|m]]; simpl; do 2 eexists;
    (split; [reflexivity|]); simpl; rewrite ?Hd; auto.
Qed.

Lemma reload_cases caller w :
  (isLoading (detector w) = true /\
   reload caller w = Resolved tt (log Warn_ReloadInProgress w)) \/
  (isLoading (detector w) = false /\
   reload caller w =
     Suspended (park (AwaitingRules caller)
                  (countFetch (log Info_Reloading (withDetector (setLoading true) w))))).
Proof. unfold reload. destruct (isLoading (detector w)); auto. Qed.

Lemma fetchesInFlight_park t w :
  fetchesInFlight (park t w) =
    fetchesInFlight w + (if isAwaitingRules t then 1 else 0).
Proof.
  unfold fetchesInFlight, park. simpl.
  rewrite List.filter_app, List.length_app. simpl.
  destruct (isAwaitingRules t); reflexivity.
Qed.

Lemma Invariant_reload caller w : Invariant w -> Invariant (after (reload caller w)).
Proof.
  intros (Hf & He & Hk).
  destruct (reload_cases caller w) as [[Hl ->]|[Hl ->]]; simpl.
  - exact (conj Hf (conj He Hk)).
  - rewrite Hl in Hf. split; [|split].
    + rewrite fetchesInFlight_park. simpl.
      change (fetchesInFlight _) with (fetchesInFlight w) at 1. lia.
    + exact He.
    + exact Hk.
Qed.

Lemma Invariant_park_polling c w : Invariant w -> Invariant (park (Polling c) w).
Proof.
  intros (Hf & He & Hk). split; [|split]; auto.
  rewrite fetchesInFlight_park. simpl. rewrite Nat.add_0_r. exact Hf.
Qed.

Lemma ensureInitialized_cases c w :
  (isInitialized (detector w) = true /\ ensureInitialized c w = Resolved tt w) \/
  (isInitialized (detector w) = false /\ isLoading (detector w) = true /\
   ensureInitialized c w = Suspended (park (Polling c) w)) \/
  (isInitialized (detector w) = false /\ isLoading (detector w) = false /\
   ensureInitialized c w = Suspended (after (reload (ByEnsure c) w))).
Proof.
  unfold ensureInitialized, reload.
  destruct (isInitialized (detector w)); [auto|].
  destruct (isLoading (detector w)); auto.
Qed.

Lemma Invariant_ensureInitialized c w :
  Invariant w -> Invariant (after (ensureInitialized c w)).
Proof.
  intros H.
  destruct (ensureInitialized_cases c w) as [[_ ->]|[(_ & _ & ->)|(_ & _ & ->)]]; simpl.
  - exact H.
  - apply Invariant_park_polling, H.
  - apply Invariant_reload, H.
Qed.

Lemma detectAsync_after m w :
  after (detectAsync m w) = w \/
  after (detectAsync m w) = after (ensureInitialized (ByDetectAsync (messageText m)) w).
Proof.
  unfold detectAsync. destruct (isBlank m); [auto|].
  right. destruct (ensureInitialized _ w); reflexivity.
Qed.

Lemma detect_world m w :
  fst (detect m w) =
    if isInitialized (detector w) then w else after (ensureInitialized ByDetect w).
Proof.
  unfold detect.
  destruct (ensureInitialized_cases ByDetect w) as [[E H]|[(E & _ & H)|(E & _ & H)]];
    rewrite E; simpl; [|rewrite H; reflexivity..].
  destruct (isBlank m); reflexivity.
Qed.

Lemma settled_keyed res now d :
  exactKeyed d -> exactKeyed (settledDetector res now d).
Proof.
  destruct res as [rules|e]; simpl; [|auto].
  intros _ k e. simpl. apply bindExact_keyed. intros k' e'.
  rewrite lookup_empty. discriminate.
Qed.

Lemma settled_empty res now d :
  emptyUntilInitialized d -> emptyUntilInitialized (settledDetector res now d).
Proof. destruct res as [rules|e]; unfold emptyUntilInitialized; simpl; [discriminate|auto]. Qed.

Lemma Invariant_rulesArrive caller res now w (before rest : list Task) :
  Invariant w ->
  pending w = (before ++ AwaitingRules caller :: rest)%list ->
  Invariant (after (rulesArrive caller res now (withPending (before ++ rest) w))).
Proof.
  intros (Hf & He & Hk) Hp.
  destruct (rulesArrive_settles caller res now (withPending (before ++ rest) w))
    as (r & w' & -> & Hd & _ & Hp' & _). simpl in *.
  assert (Hidle : isLoading (detector w') = false)
    by (rewrite Hd; destruct caller, res; reflexivity).
  assert (Hnone : fetchesInFlight w' = 0).
  { unfold fetchesInFlight in *. rewrite Hp'. rewrite Hp in Hf.
    rewrite List.filter_app, List.length_app in *. simpl in Hf.
    destruct (isLoading (detector w)); lia. }
  split; [|split].
  - rewrite Hidle. exact Hnone.
  - rewrite Hd. destruct caller; try (apply settled_empty, He).
    unfold emptyUntilInitialized. simpl. discriminate.
  - rewrite Hd. destruct caller; apply (settled_keyed res now) in Hk; exact Hk.
Qed.

Lemma ensured_after c w : after (ensured c w) = w.
Proof. destruct c; reflexivity. Qed.

Lemma Invariant_timerFires c w (before rest : list Task) :
  Invariant w ->
  pending w = (before ++ Polling c :: rest)%list ->
  Invariant (after (timerFires c (withPending (before ++ rest) w))).
Proof.
  intros (Hf & He & Hk) Hp.
  assert (H0 : Invariant (withPending (before ++ rest) w)).
  { split; [|split]; auto. unfold fetchesInFlight in *. simpl.
    rewrite Hp in Hf. rewrite List.filter_app in *. exact Hf. }
  unfold timerFires. destruct (isLoading _) eqn:E.
  - apply Invariant_park_polling, H0.
  - rewrite ensured_after. exact H0.
Qed.

Lemma Invariant_step w w' : Invariant w -> Step w w' -> Invariant w'.
Proof.
  intros H S. destruct S.
  - apply Invariant_reload, H.
  - apply Invariant_reload, H.
  - rewrite detect_world. destruct (isInitialized _); [exact H|].
    apply Invariant_ensureInitialized, H.
  - destruct (detectAsync_after m w) as [-> | ->]; [exact H|].
    apply Invariant_ensureInitialized, H.
  - eapply Invariant_rulesArrive; eassumption.
  - eapply Invariant_timerFires; eassumption.
Qed.

Lemma Reachable_Invariant w : Reachable w -> Invariant w.
Proof.
  induction 1 as [|w w' _ IH S].
  - split; [|split]; [reflexivity | split; [|split]; reflexivity |].
    intros k e. simpl. rewrite lookup_empty. discriminate.
  - eapply Invariant_step; eassumption.
Qed.

(** ** The entry points on a ready engine *)

Lemma detect_ready msg w :
  isInitialized (detector w) = true -> msg <> EmptyString ->
  detect (Some msg) w = (w, detect_body (detector w) msg).
Proof.
  intros Hi Hm. unfold detect. rewrite Hi, (isBlank_Some _ Hm). reflexivity.
Qed.

Lemma detectAsync_ready msg w :
  isInitialized (detector w) = true -> msg <> EmptyString ->
  detectAsync (Some msg) w = Resolved (detectAsync_body (detector w) msg) w.
Proof.
  intros Hi Hm. unfold detectAsync, ensureInitialized.
  rewrite Hi, (isBlank_Some _ Hm). reflexivity.
Qed.

Lemma loaded_is_initialized w :
  Reachable w ->
  containsPatterns (detector w) <> [] \/ regexPatterns (detector w) <> [] \/
  exactPatterns (detector w) <> ∅ ->
  isInitialized (detector w) = true.
Proof.
  intros Hr Hne. destruct (Reachable_Invariant w Hr) as (_ & He & _).
  destruct (isInitialized (detector w)) eqn:E; [reflexivity|].
  destruct (He E) as (H1 & H2 & H3). intuition congruence.
Qed.

Lemma contains_tier_wins d msg c :
  In c (containsPatterns d) ->
  includes (toLowerCase msg) (ContainsPattern.text c) = true ->
  exists p, In p (containsPatterns d) /\ detectAsync_body d msg = containsResult p.
Proof.
  intros Hin Hc. unfold detectAsync_body.
  destruct (containsLoop _ _) as [r|] eqn:E.
  - apply containsLoop_Some in E as (b & p & t & Hl & -> & _).
    exists p. split; [|reflexivity]. rewrite Hl. apply in_or_app. right. left. reflexivity.
  - apply containsLoop_None in E. rewrite List.Forall_forall in E.
    rewrite (E c Hin) in Hc. discriminate.
Qed.

Lemma later_tiers_only_after_miss d msg :
  let res := detectAsync_body d msg in
  (matchType res = Some "exact" ->
     containsLoop (toLowerCase msg) (containsPatterns d) = None) /\
  (matchType res = Some "regex" ->
     containsLoop (toLowerCase msg) (containsPatterns d) = None /\
     exactPatterns d !! trim (toLowerCase msg) = None) /\
  (matched res = false ->
     containsLoop (toLowerCase msg) (containsPatterns d) = None /\
     exactPatterns d !! trim (toLowerCase msg) = None /\
     regexLoop msg (regexPatterns d) = None).
Proof.
  unfold detectAsync_body.
  destruct (containsLoop _ _) as [r|] eqn:Ec.
  { apply containsLoop_Some in Ec as (b & p & t & _ & -> & _).
    simpl. repeat split; discriminate. }
  destruct (exactPatterns d !! _) as [e|] eqn:Ee.
  { simpl. repeat split; discriminate. }
  destruct (regexLoop _ _) as [r|] eqn:Er.
  { apply regexLoop_Some in Er as (p & _ & -> & _).
    simpl. repeat split; auto; discriminate. }
  simpl. repeat split; auto; discriminate.
Qed.

(** C1. On every world the engine can be in and every non-empty message:
    when some containment entry occurs in the lowercased message and some
    regex entry matches the message, [detectAsync] and [detect] both
    return at once with a match whose [matchType] is "contains".  The
    tiers are tried in the order containment, exact, regex: on any ready
    engine an exact result means the containment loop found nothing, and
    a regex result means that and a failed exact lookup. *)
Theorem tier_priority w msg (c : ContainsPattern.t) (r : RegexPattern.t) :
  Reachable w ->
  msg <> EmptyString ->
  In c (containsPatterns (detector w)) ->
  includes (toLowerCase msg) (ContainsPattern.text c) = true ->
  In r (regexPatterns (detector w)) ->
  test (RegexPattern.pattern r) msg = true ->
  (exists res,
     detectAsync (Some msg) w = Resolved res w /\
     detect (Some msg) w = (w, res) /\
     matched res = true /\ matchType res = Some "contains") /\
  (forall w' msg',
     isInitialized (detector w') = true -> msg' <> EmptyString ->
     let res := snd (detect (Some msg') w') in
     detectAsync (Some msg') w' = Resolved res w' /\
     (matchType res = Some "exact" ->
        containsLoop (toLowerCase msg') (containsPatterns (detector w')) = None) /\
     (matchType res = Some "regex" ->
        containsLoop (toLowerCase msg') (containsPatterns (detector w')) = None /\
        exactPatterns (detector w') !! trim (toLowerCase msg') = None)).
Proof.
  intros Hr Hm Hc Hcm _ _. split.
  - assert (Hi : isInitialized (detector w) = true).
    { apply loaded_is_initialized; [exact Hr|]. left. intros E. rewrite E in Hc. exact Hc. }
    destruct (contains_tier_wins (detector w) msg c Hc Hcm) as (p & _ & Hp).
    exists (containsResult p).
    rewrite (detectAsync_ready msg w Hi Hm), (detect_ready msg w Hi Hm).
    rewrite (detect_body_eq (detector w) msg), Hp. auto.
  - intros w' msg' Hi' Hm'.
    rewrite (detectAsync_ready msg' w' Hi' Hm'), (detect_ready msg' w' Hi' Hm'). simpl.
    rewrite (detect_body_eq (detector w') msg').
    destruct (later_tiers_only_after_miss (detector w') msg') as (H1 & H2 & _). auto.
Qed.

(** C8. On a ready engine (initialised, no reload running) the
    synchronous [detect] returns the very result [detectAsync] resolves
    to, for every message, and neither changes the world; on an engine
    that is not initialised [detect] returns [{ matched: false }]. *)
Theorem detect_agrees_with_detectAsync w m :
  isInitialized (detector w) = true ->
  isLoading (detector w) = false ->
  detectAsync m w = Resolved (snd (detect m w)) w /\
  fst (detect m w) = w /\
  (forall w0 m0, isInitialized (detector w0) = false ->
                 snd (detect m0 w0) = notMatched).
Proof.
  intros Hi _. unfold detectAsync, detect, ensureInitialized. rewrite Hi. simpl.
  split; [|split].
  - destruct (isBlank m); [reflexivity|]. simpl.
    rewrite (detect_body_eq (detector w) (messageText m)). reflexivity.
  - destruct (isBlank m); reflexivity.
  - intros w0 m0 H0. rewrite H0. reflexivity.
Qed.

(** C10. Every value returned by [detect], and every value [detectAsync]
    resolves to (at once, when its reload settles, or when its wait
    ends), is well formed: with [matched] true it carries a category, a
    pattern and one of the match types "contains", "exact", "regex";
    with [matched] false it carries none of the three. *)
Theorem results_wellFormed w m caller res now c :
  wellFormed (snd (detect m w)) /\
  resolvesWith wellFormed (detectAsync m w) /\
  resolvesWith (from_option wellFormed True) (rulesArrive caller res now w) /\
  resolvesWith (from_option wellFormed True) (timerFires c w).
Proof.
  assert (Hn : wellFormed notMatched) by (unfold wellFormed; simpl; auto).
  split; [|split; [|split]].
  - unfold detect. destruct (negb _); [exact Hn|].
    destruct (isBlank m); [exact Hn|]. simpl.
    rewrite (detect_body_eq (detector w) (messageText m)).
    apply detectAsync_body_wellFormed.
  - unfold detectAsync. destruct (isBlank m); [exact Hn|].
    destruct (ensureInitialized_cases (ByDetectAsync (messageText m)) w)
      as [[_ ->]|[(_ & _ & ->)|(_ & _ & ->)]]; simpl; auto.
    apply detectAsync_body_wellFormed.
  - destruct (rulesArrive_settles caller res now w) as (r & w' & -> & _ & -> & _).
    destruct caller as [| |[|msg]]; simpl; auto. apply detectAsync_body_wellFormed.
  - unfold timerFires. destruct (isLoading _); simpl; [exact I|].
    destruct c; simpl; auto. apply detectAsync_body_wellFormed.
Qed.

(** C4 (amended). For an empty or absent message both entry points
    return [{ matched: false }] whatever the indices hold. [detectAsync]
    leaves the world as it is, so it starts no fetch in any state.  The
    synchronous [detect] tests the initialised flag before the message:
    on an initialised engine it leaves the world as it is; on an engine
    that is not initialised it calls [ensureInitialized] first, which
    issues one store fetch unless a reload is already running.  The
    indices are never changed. *)
Theorem blank_message_short_circuits m w :
  isBlank m = true ->
  detectAsync m w = Resolved notMatched w /\
  snd (detect m w) = notMatched /\
  fst (detect m w) =
    (if isInitialized (detector w) then w else after (ensureInitialized ByDetect w)) /\
  storeFetches (fst (detect m w)) =
    storeFetches w +
    (if isInitialized (detector w) || isLoading (detector w) then 0 else 1) /\
  regexPatterns (detector (fst (detect m w))) = regexPatterns (detector w) /\
  containsPatterns (detector (fst (detect m w))) = containsPatterns (detector w) /\
  exactPatterns (detector (fst (detect m w))) = exactPatterns (detector w).
Proof.
  intros Hb. split; [unfold detectAsync; rewrite Hb; reflexivity|].
  split; [unfold detect; rewrite Hb; destruct (negb _); reflexivity|].
  rewrite detect_world. split; [reflexivity|].
  destruct (ensureInitialized_cases ByDetect w) as [[E H]|[(E & L & H)|(E & L & H)]];
    rewrite E, ?H, ?L; simpl; auto with lia.
  unfold reload. rewrite L. simpl. auto with lia.
Qed.

(** ** Reloading and initialisation *)

Lemma settledDetector_Failed_stats e now d :
  isLoading d = false -> getStats (settledDetector (Failed e) now d) = getStats d.
Proof. intros H. unfold getStats. simpl. rewrite H. reflexivity. Qed.

(** C2. A [reload()] call that does fetch (none was running) and whose
    fetch raises: once the call has finished, the three indices, the
    reload time and the initialised flag are those of before the call,
    the loading flag is down again and [getStats()] reports what it
    reported before; the [catch] block ends normally, so the promise of
    [reload()] resolves for every caller.  The same holds of the indices
    for whatever world [w'] the failure arrives in. *)
Theorem failed_reload_keeps_snapshot caller e now w :
  isLoading (detector w) = false ->
  let w1 := after (reload caller w) in
  storeFetches w1 = S (storeFetches w) /\
  (exists w2,
     reload_resumed (Failed e) now w1 = Normal w2 /\
     regexPatterns (detector w2) = regexPatterns (detector w) /\
     containsPatterns (detector w2) = containsPatterns (detector w) /\
     exactPatterns (detector w2) = exactPatterns (detector w) /\
     lastReloadTime (detector w2) = lastReloadTime (detector w) /\
     detector w2 = detector w /\
     getStats (detector w2) = getStats (detector w) /\
     rulesArrive ByApi (Failed e) now w1 = Resolved None w2 /\
     rulesArrive ByEvent (Failed e) now w1 = Resolved None w2) /\
  (forall caller' w',
     exists r w2',
       rulesArrive caller' (Failed e) now w' = Resolved r w2' /\
       regexPatterns (detector w2') = regexPatterns (detector w') /\
       containsPatterns (detector w2') = containsPatterns (detector w') /\
       exactPatterns (detector w2') = exactPatterns (detector w') /\
       lastReloadTime (detector w2') = lastReloadTime (detector w') /\
       regexCount (getStats (detector w2')) = regexCount (getStats (detector w')) /\
       containsCount (getStats (detector w2')) = containsCount (getStats (detector w')) /\
       exactCount (getStats (detector w2')) = exactCount (getStats (detector w')) /\
       totalCount (getStats (detector w2')) = totalCount (getStats (detector w'))).
Proof.
  intros Hl w1.
  destruct (reload_cases caller w) as [[Hl' _]|[_ Hw1]]; [congruence|].
  assert (E1 : w1 = park (AwaitingRules caller)
                      (countFetch (log Info_Reloading (withDetector (setLoading true) w))))
    by (unfold w1; rewrite Hw1; reflexivity).
  split; [rewrite E1; reflexivity|]. split.
  - destruct (reload_resumed_settles (Failed e) now w1) as (w2 & Hr & Hd & _).
    exists w2. split; [exact Hr|].
    assert (Hd' : detector w2 = detector w).
    { rewrite Hd, E1. simpl. destruct (detector w); simpl in *. rewrite Hl. reflexivity. }
    rewrite Hd'. repeat split; unfold rulesArrive; rewrite Hr; reflexivity.
  - intros caller' w'.
    destruct (rulesArrive_settles caller' (Failed e) now w') as (r & w2' & Hr & Hd & _).
    exists r, w2'. split; [exact Hr|]. unfold getStats. rewrite Hd.
    destruct caller'; simpl; auto 10.
Qed.

(** C3. In every world the engine can be in, at most one store fetch is
    in flight, and one is in flight exactly when the loading flag is up.
    A [reload()] call that finds the flag up returns at once: it issues
    no fetch and leaves the detector and the parked calls as they are.
    So two calls in a row on an idle engine issue one fetch, and when
    that fetch settles the one cycle is complete and the flag is down. *)
Theorem single_reload_in_flight w c1 c2 res now :
  Reachable w ->
  fetchesInFlight w <= 1 /\
  fetchesInFlight w = (if isLoading (detector w) then 1 else 0) /\
  (isLoading (detector w) = true ->
     reload c2 w = Resolved tt (log Warn_ReloadInProgress w) /\
     storeFetches (after (reload c2 w)) = storeFetches w /\
     detector (after (reload c2 w)) = detector w /\
     pending (after (reload c2 w)) = pending w) /\
  (isLoading (detector w) = false ->
     let w1 := after (reload c1 w) in
     let w2 := after (reload c2 w1) in
     reload c2 w1 = Resolved tt (log Warn_ReloadInProgress w1) /\
     storeFetches w1 = S (storeFetches w) /\
     storeFetches w2 = S (storeFetches w) /\
     detector w2 = detector w1 /\
     pending w2 = (pending w ++ [AwaitingRules c1])%list /\
     fetchesInFlight w2 = 1 /\
     let w3 := after (rulesArrive c1 res now (withPending (pending w) w2)) in
     storeFetches w3 = S (storeFetches w) /\
     fetchesInFlight w3 = 0 /\
     isLoading (detector w3) = false).
Proof.
  intros Hr. destruct (Reachable_Invariant w Hr) as (Hf & _ & _).
  split; [rewrite Hf; destruct (isLoading _); lia|].
  split; [exact Hf|]. split.
  - intros Hl. unfold reload. rewrite Hl. auto.
  - intros Hl. rewrite Hl in Hf.
    destruct (reload_cases c1 w) as [[Hl' _]|[_ E1]]; [congruence|].
    rewrite E1. simpl.
    set (w1 := park (AwaitingRules c1) _).
    destruct (reload_cases c2 w1) as [[_ E2]|[Hl' _]]; [|discriminate Hl'].
    rewrite E2. simpl.
    destruct (rulesArrive_settles c1 res now
                (withPending (pending w) (log Warn_ReloadInProgress w1)))
      as (r & w3 & -> & Hd & _ & Hp & Hs). simpl.
    repeat split.
    + change (fetchesInFlight w1 = 1). unfold w1.
      rewrite fetchesInFlight_park. simpl.
      change (fetchesInFlight _) with (fetchesInFlight w) at 1. lia.
    + exact Hs.
    + unfold fetchesInFlight. rewrite Hp. exact Hf.
    + rewrite Hd. destruct c1, res; reflexivity.
Qed.

(** ** What a reload installs *)

Lemma skipped_rule_entries rule :
  ErrorRule.matchType rule = "regex" ->
  safeRegex (ErrorRule.pattern rule) = false \/ newRegExp (ErrorRule.pattern rule) = None ->
  regexEntry rule = None /\ containsEntry rule = None /\
  forall m, bindExact m rule = m.
Proof.
  intros Hm Hbad. unfold regexEntry, containsEntry, bindExact. rewrite Hm. simpl.
  destruct Hbad as [-> | ->]; [auto|].
  destruct (safeRegex _); auto.
Qed.

Lemma settled_without rules1 rule rules2 now d :
  ErrorRule.matchType rule = "regex" ->
  safeRegex (ErrorRule.pattern rule) = false \/ newRegExp (ErrorRule.pattern rule) = None ->
  settledDetector (Rules (rules1 ++ rule :: rules2)) now d =
  settledDetector (Rules (rules1 ++ rules2)) now d.
Proof.
  intros Hm Hbad. destruct (skipped_rule_entries rule Hm Hbad) as (Hr & Hc & He).
  unfold settledDetector.
  rewrite !omap_app, !fold_left_app. simpl. rewrite Hr, Hc, He. reflexivity.
Qed.

Lemma regex_result_origin d m :
  isInitialized d = true ->
  forall w, detector w = d ->
  matchType (snd (detect m w)) = Some "regex" ->
  exists p, In p (regexPatterns d) /\
            snd (detect m w) = regexResult p /\
            test (RegexPattern.pattern p) (messageText m) = true.
Proof.
  intros Hi w <-. unfold detect. rewrite Hi. simpl.
  destruct (isBlank m); [discriminate|]. simpl. unfold detect_body.
  destruct (containsLoop _ _) as [r|] eqn:Ec.
  { apply containsLoop_Some in Ec as (b & p & t & _ & -> & _). discriminate. }
  destruct (exactPatterns _ !! _); [discriminate|].
  destruct (regexLoop _ _) as [r|] eqn:Er; [|discriminate].
  apply regexLoop_Some in Er as (p & Hin & -> & Ht). eauto.
Qed.

Lemma regexEntry_Some rule p :
  regexEntry rule = Some p ->
  ErrorRule.matchType rule = "regex" /\
  safeRegex (ErrorRule.pattern rule) = true /\
  newRegExp (ErrorRule.pattern rule) = Some (RegexPattern.pattern p) /\
  RegexPattern.category p = ErrorRule.category rule.
Proof.
  unfold regexEntry.
  destruct (String.eqb_spec (ErrorRule.matchType rule) "regex"); [|discriminate].
  destruct (safeRegex _); [|discriminate].
  destruct (newRegExp _); [|discriminate].
  intros [= <-]. auto.
Qed.

(** C5. A regex rule whose pattern the screen refuses, or whose pattern
    does not compile, is passed over by the loop of [reload]: the
    iteration leaves the detector as it was and installs nothing; for a
    refused pattern it adds one to the skipped count and logs a warning,
    for a pattern that does not compile it logs an error.  The reload goes
    on and completes, and leaves exactly the detector it would leave had
    the rule not been in the store.  Every regex match that [detect]
    reports afterwards comes from a rule of the store that passed the
    screen and compiled. *)
Theorem unsafe_regex_rule_skipped rules1 rule rules2 now w st :
  ErrorRule.matchType rule = "regex" ->
  safeRegex (ErrorRule.pattern rule) = false \/ newRegExp (ErrorRule.pattern rule) = None ->
  detector (loopWorld (loadRule st rule)) = detector (loopWorld st) /\
  validRegexCount (loadRule st rule) = validRegexCount st /\
  (safeRegex (ErrorRule.pattern rule) = false ->
     loadRule st rule =
       {| loopWorld := log (Warn_RedosRisk (ErrorRule.pattern rule)) (loopWorld st);
          validRegexCount := validRegexCount st;
          skippedRedosCount := S (skippedRedosCount st) |} /\
     skippedRedosCount (loadRules (rules1 ++ rule :: rules2) st) =
       S (skippedRedosCount (loadRules (rules1 ++ rules2) st))) /\
  (safeRegex (ErrorRule.pattern rule) = true ->
     loadRule st rule = inLoop (log (Error_InvalidRegex (ErrorRule.pattern rule))) st) /\
  let w1 := after (rulesArrive ByApi (Rules (rules1 ++ rule :: rules2)) now w) in
  detector w1 = detector (after (rulesArrive ByApi (Rules (rules1 ++ rules2)) now w)) /\
  regexPatterns (detector w1) = (omap regexEntry rules1 ++ omap regexEntry rules2)%list /\
  isLoading (detector w1) = false /\
  isInitialized (detector w1) = true /\
  lastReloadTime (detector w1) = now /\
  forall m,
    matchType (snd (detect m w1)) = Some "regex" ->
    exists rule' re,
      In rule' (rules1 ++ rules2) /\
      ErrorRule.matchType rule' = "regex" /\
      safeRegex (ErrorRule.pattern rule') = true /\
      newRegExp (ErrorRule.pattern rule') = Some re /\
      test re (messageText m) = true /\
      pattern (snd (detect m w1)) = Some (source re) /\
      category (snd (detect m w1)) = Some (ErrorRule.category rule').
Proof.
  intros Hm Hbad.
  destruct (skipped_rule_entries rule Hm Hbad) as (Hr & Hc & He).
  split.
  { rewrite loadRule_detector. simpl. rewrite Hr, Hc, He, !app_nil_r.
    destruct (detector (loopWorld st)); reflexivity. }
  split.
  { destruct (loadRule_counts st rule) as [-> _]. rewrite Hr. simpl. lia. }
  split.
  { intros Hs. split.
    - unfold loadRule, regexTry. rewrite Hm, Hs. reflexivity.
    - destruct (loadRules_counts (rules1 ++ rule :: rules2) st) as [_ ->].
      destruct (loadRules_counts (rules1 ++ rules2) st) as [_ ->].
      rewrite !List.filter_app, !List.length_app. simpl.
      unfold isRedosRule at 2. rewrite Hm, Hs. simpl. lia. }
  split.
  { intros Hs. destruct Hbad as [Hbad|Hbad]; [congruence|].
    unfold loadRule, regexTry. rewrite Hm, Hs, Hbad. reflexivity. }
  intros w1.
  destruct (rulesArrive_settles ByApi (Rules (rules1 ++ rule :: rules2)) now w)
    as (r1 & w1' & E1 & Hd1 & _).
  destruct (rulesArrive_settles ByApi (Rules (rules1 ++ rules2)) now w)
    as (r2 & w2' & E2 & Hd2 & _).
  subst w1. rewrite E1, E2. simpl.
  rewrite Hd1, Hd2, (settled_without _ _ _ _ _ Hm Hbad).
  split; [reflexivity|]. simpl. rewrite omap_app.
  split; [reflexivity|]. do 3 (split; [reflexivity|]).
  intros m Hres.
  destruct (regex_result_origin
              (settledDetector (Rules (rules1 ++ rules2)) now (detector w)) m
              eq_refl w1')
    as (p & Hin & Hp & Ht); [rewrite Hd1; apply settled_without; assumption | exact Hres |].
  simpl in Hin. apply list_elem_of_In, list_elem_of_omap in Hin as (rule' & Hin & Hentry).
  apply regexEntry_Some in Hentry as (H1 & H2 & H3 & H4).
  exists rule', (RegexPattern.pattern p). rewrite Hp. simpl. rewrite H4.
  apply list_elem_of_In in Hin. auto 10.
Qed.

(** ** The exact tier *)

Lemma exact_result_origin d msg :
  exactKeyed d ->
  matchType (detectAsync_body d msg) = Some "exact" ->
  pattern (detectAsync_body d msg) = Some (trim (toLowerCase msg)).
Proof.
  intros Hk. unfold detectAsync_body.
  destruct (containsLoop _ _) as [r|] eqn:Ec.
  { apply containsLoop_Some in Ec as (b & p & t & _ & -> & _). discriminate. }
  destruct (exactPatterns d !! _) as [e|] eqn:Ee.
  { intros _. simpl. rewrite (Hk _ _ Ee). reflexivity. }
  destruct (regexLoop _ _) as [r|] eqn:Er; [|discriminate].
  apply regexLoop_Some in Er as (p & _ & -> & _). discriminate.
Qed.

(** C6. An exact rule is stored under its pattern lowercased and not
    trimmed, while the exact tier looks up the message lowercased and
    then trimmed.  So for an exact rule whose pattern begins or ends with
    white space the stored key differs from its own trimmed form and from
    the key looked up for any message: whenever [detect] or [detectAsync]
    reports an exact match, the pattern reported is the trimmed lowercased
    message and never the text of that rule.  With the one exact rule
    "out of memory" loaded, the message "  Out Of Memory  " is an exact
    match and "out of memory error" is not matched. *)
Theorem exact_tier_semantics w rule msg st now :
  Reachable w ->
  ErrorRule.matchType rule = "exact" ->
  startsWithWhiteSpace (ErrorRule.pattern rule)
    || endsWithWhiteSpace (ErrorRule.pattern rule) = true ->
  let key := toLowerCase (ErrorRule.pattern rule) in
  exactPatterns (detector (loopWorld (loadRule st rule))) =
    <[key := ExactPattern.mk key (ErrorRule.category rule) (ErrorRule.description rule)]>
      (exactPatterns (detector (loopWorld st))) /\
  key <> trim key /\
  trim (toLowerCase msg) <> key /\
  (matchType (snd (detect (Some msg) w)) = Some "exact" ->
     pattern (snd (detect (Some msg) w)) = Some (trim (toLowerCase msg)) /\
     pattern (snd (detect (Some msg) w)) <> Some key) /\
  resolvesWith
    (fun res => matchType res = Some "exact" ->
                pattern res = Some (trim (toLowerCase msg)) /\ pattern res <> Some key)
    (detectAsync (Some msg) w) /\
  let w' := reloaded (Rules memoryRules) now initialWorld in
  detect (Some "  Out Of Memory  ") w' =
    (w', {| matched := true; category := Some "oom";
            pattern := Some "out of memory"; matchType := Some "exact" |}) /\
  detect (Some "out of memory error") w' = (w', notMatched) /\
  detectAsync (Some "  Out Of Memory  ") w' =
    Resolved {| matched := true; category := Some "oom";
                pattern := Some "out of memory"; matchType := Some "exact" |} w' /\
  detectAsync (Some "out of memory error") w' = Resolved notMatched w'.
Proof.
  intros Hr Hm Hws key.
  destruct (Reachable_Invariant w Hr) as (_ & _ & Hk).
  assert (Hmiss : forall m, trim (toLowerCase m) <> key)
    by (intros m; apply trimmed_lookup_misses, Hws).
  assert (Hbody : forall res,
             res = detectAsync_body (detector w) msg ->
             matchType res = Some "exact" ->
             pattern res = Some (trim (toLowerCase msg)) /\ pattern res <> Some key).
  { intros res -> He. rewrite (exact_result_origin _ _ Hk He).
    split; [reflexivity|]. intros [= E]. exact (Hmiss msg E). }
  split.
  { rewrite loadRule_detector. simpl. unfold bindExact. rewrite Hm. reflexivity. }
  split.
  { intros E. destruct (trim_clean key) as [H1 H2]. rewrite <- E in H1, H2.
    unfold key in H1, H2.
    rewrite toLowerCase_startsWithWhiteSpace in H1.
    rewrite toLowerCase_endsWithWhiteSpace in H2.
    rewrite H1, H2 in Hws. discriminate. }
  split; [apply Hmiss|]. split.
  { unfold detect. destruct (negb _); [discriminate|].
    destruct (isBlank _); [discriminate|]. simpl.
    apply Hbody. apply detect_body_eq. }
  split.
  { unfold detectAsync. destruct (isBlank _); [discriminate|].
    destruct (ensureInitialized_cases (ByDetectAsync (messageText (Some msg))) w)
      as [[_ ->]|[(_ & _ & ->)|(_ & _ & ->)]]; simpl; auto. }
  repeat split; vm_compute; reflexivity.
Qed.

(** ** Order within a tier *)


(** ** Worlds of the examples *)

Lemma reloaded_Reachable res now : Reachable (reloaded res now initialWorld).
Proof.
  unfold reloaded.
  apply (Reachable_step (after (reload ByApi initialWorld))).
  - apply (Reachable_step initialWorld); [constructor|].
    apply Step_reload.
  - apply (Step_rules (after (reload ByApi initialWorld))
             ByApi res now [] []). reflexivity.
Qed.

Lemma coldEventFailed_Reachable : Reachable coldEventFailed.
Proof.
  unfold coldEventFailed.
  apply (Reachable_step coldEventWaiting).
  - apply (Reachable_step coldEvent).
    + apply (Reachable_step initialWorld); [constructor|].
      apply Step_event.
    + apply (Step_detectAsync (Some "timeout") coldEvent).
  - apply (Step_rules coldEventWaiting ByEvent tableMissing 0
             [] [Polling (ByDetectAsync "timeout")]). reflexivity.
Qed.

(** * Further properties *)

(** ** More on strings *)

Lemma toLowerCase_app a b : toLowerCase (a +:+ b) = toLowerCase a +:+ toLowerCase b.
Proof. induction a as [|c a IH]; simpl; [reflexivity | rewrite IH; reflexivity]. Qed.

Lemma toLowerCase_nonempty s : s <> EmptyString -> toLowerCase s <> EmptyString.
Proof. destruct s; [congruence | discriminate]. Qed.

Lemma toLowerCase_nonempty_inv s : toLowerCase s <> EmptyString -> s <> EmptyString.
Proof. destruct s; [simpl; congruence | discriminate]. Qed.

Lemma append_nonempty a s b : s <> EmptyString -> a +:+ s +:+ b <> EmptyString.
Proof.
  destruct a; simpl; [|discriminate]. destruct s; [congruence | discriminate].
Qed.

Lemma startsWith_app s t b : startsWith s t = true -> startsWith (s +:+ b) t = true.
Proof.
  revert s. induction t as [|c t IH]; intros s; [intros _; destruct s, b; reflexivity|].
  destruct s as [|a s]; simpl; [discriminate|].
  destruct (decide (a = c)); [apply IH | discriminate].
Qed.

Lemma includes_anywhere_empty s : includes s EmptyString = true.
Proof. destruct s; reflexivity. Qed.

Lemma includes_app_r s t b : includes s t = true -> includes (s +:+ b) t = true.
Proof.
  induction s as [|a s IH].
  - destruct t; [intros _; apply includes_anywhere_empty | discriminate].
  - intros H. change (startsWith (String a s) t || includes s t = true) in H.
    change (startsWith (String a s +:+ b) t || includes (s +:+ b) t = true).
    apply orb_true_iff in H as [H|H].
    + rewrite (startsWith_app _ _ _ H). reflexivity.
    + rewrite (IH H). apply orb_true_r.
Qed.

Lemma includes_app_l a s t : includes s t = true -> includes (a +:+ s) t = true.
Proof.
  intros H. induction a as [|c a IH]; simpl; [exact H|].
  rewrite IH. apply orb_true_r.
Qed.

Lemma trimStart_app s t :
  trimStart (s +:+ t) =
    match trimStart s with
    | EmptyString => trimStart t
    | u => u +:+ t
    end.
Proof.
  induction s as [|a s IH]; [reflexivity|].
  change (String a s +:+ t) with (String a (s +:+ t)). simpl.
  destruct (isWhiteSpace a); [exact IH | reflexivity].
Qed.

Lemma trimStart_allWhiteSpace s : allWhiteSpace s = true -> trimStart s = EmptyString.
Proof.
  induction s as [|a s IH]; simpl; [reflexivity|].
  destruct (isWhiteSpace a); [exact IH | discriminate].
Qed.

Lemma trimEnd_allWhiteSpace s : allWhiteSpace s = true -> trimEnd s = EmptyString.
Proof.
  induction s as [|a s IH]; simpl; [reflexivity|].
  destruct (isWhiteSpace a); [|discriminate]. simpl. intros H. rewrite (IH H). reflexivity.
Qed.

Lemma trimEnd_app s t : allWhiteSpace t = true -> trimEnd (s +:+ t) = trimEnd s.
Proof.
  intros H. induction s as [|a s IH]; [apply trimEnd_allWhiteSpace, H|].
  change (String a s +:+ t) with (String a (s +:+ t)). simpl.
  rewrite IH. reflexivity.
Qed.

Lemma trim_padding pre s post :
  allWhiteSpace pre = true -> allWhiteSpace post = true ->
  trim (pre +:+ s +:+ post) = trim s.
Proof.
  intros Hpre Hpost. unfold trim.
  rewrite trimStart_app, (trimStart_allWhiteSpace _ Hpre), trimStart_app.
  destruct (trimStart s) as [|c u] eqn:E.
  - rewrite (trimStart_allWhiteSpace _ Hpost). reflexivity.
  - apply trimEnd_app, Hpost.
Qed.

Lemma toLowerCase_allWhiteSpace s : allWhiteSpace (toLowerCase s) = allWhiteSpace s.
Proof.
  induction s as [|c s IH]; simpl; [reflexivity|].
  rewrite lowerUnit_isWhiteSpace, IH. reflexivity.
Qed.

(** ** More on the detection body *)

Lemma containsLoop_matchType lower (ps : list ContainsPattern.t) r :
  containsLoop lower ps = Some r -> matchType r = Some "contains".
Proof. intros H. apply containsLoop_Some in H as (b & p & t & _ & -> & _). reflexivity. Qed.

Lemma regexLoop_matchType msg (ps : list RegexPattern.t) r :
  regexLoop msg ps = Some r -> matchType r = Some "regex".
Proof. intros H. apply regexLoop_Some in H as (p & _ & -> & _). reflexivity. Qed.

Lemma body_contains_iff d msg :
  matchType (detectAsync_body d msg) = Some "contains" <->
  containsLoop (toLowerCase msg) (containsPatterns d) <> None.
Proof.
  unfold detectAsync_body.
  destruct (containsLoop _ _) as [r|] eqn:Ec.
  - rewrite (containsLoop_matchType _ _ _ Ec). split; [discriminate | reflexivity].
  - destruct (exactPatterns d !! _); [split; [discriminate | congruence]|].
    destruct (regexLoop _ _) as [r|] eqn:Er.
    + rewrite (regexLoop_matchType _ _ _ Er). split; [discriminate | congruence].
    + split; [discriminate | congruence].
Qed.

Lemma body_exact_iff d msg :
  matchType (detectAsync_body d msg) = Some "exact" <->
  containsLoop (toLowerCase msg) (containsPatterns d) = None /\
  is_Some (exactPatterns d !! trim (toLowerCase msg)).
Proof.
  unfold detectAsync_body.
  destruct (containsLoop _ _) as [r|] eqn:Ec.
  - rewrite (containsLoop_matchType _ _ _ Ec). split; [discriminate | intros [[=] _]].
  - destruct (exactPatterns d !! _) as [e|]; simpl.
    + split; [eauto | reflexivity].
    + destruct (regexLoop _ _) as [r|] eqn:Er;
        [rewrite (regexLoop_matchType _ _ _ Er)|];
        (split; [discriminate | intros [_ [x [=]]]]).
Qed.

Lemma containsLoop_mono lower lower' (ps : list ContainsPattern.t) :
  (forall t, includes lower t = true -> includes lower' t = true) ->
  containsLoop lower ps <> None -> containsLoop lower' ps <> None.
Proof.
  intros Hm. induction ps as [|q ps IH]; simpl; [auto|].
  destruct (includes lower (ContainsPattern.text q)) eqn:E.
  - rewrite (Hm _ E). discriminate.
  - destruct (includes lower' _); [discriminate | exact IH].
Qed.

(** X1. [isEmpty()] answers true exactly when the three indices hold
    nothing; [getStats()] then reports a total of zero and [detect] returns
    [{ matched: false }] for every message.  [detectAsync] resolves at once
    to [{ matched: false }] when the message is blank or the engine is
    initialised; on an engine that is not initialised it does not answer a
    message that is not blank from the empty indices: it suspends in
    [ensureInitialized], and the load decides what it resolves to. *)
Theorem empty_engine_matches_nothing w m :
  isEmpty (detector w) = true ->
  regexPatterns (detector w) = [] /\
  containsPatterns (detector w) = [] /\
  exactPatterns (detector w) = ∅ /\
  totalCount (getStats (detector w)) = 0 /\
  snd (detect m w) = notMatched /\
  detectAsync m w =
    (if isBlank m || isInitialized (detector w) then Resolved notMatched w
     else Suspended (after (ensureInitialized (ByDetectAsync (messageText m)) w))) /\
  (forall d, regexPatterns d = [] -> containsPatterns d = [] -> exactPatterns d = ∅ ->
             isEmpty d = true).
Proof.
  unfold isEmpty. rewrite !andb_true_iff, !Nat.eqb_eq. intros [[Hr Hc] He].
  apply List.length_zero_iff_nil in Hr, Hc. apply map_size_empty_iff in He.
  assert (Hbody : forall msg, detectAsync_body (detector w) msg = notMatched).
  { intros msg. unfold detectAsync_body. rewrite Hr, Hc, He, lookup_empty. reflexivity. }
  split; [exact Hr|]. split; [exact Hc|]. split; [exact He|].
  split; [unfold getStats; simpl; rewrite Hr, Hc, He; reflexivity|].
  split; [|split].
  - unfold detect. destruct (negb _); [reflexivity|].
    destruct (isBlank m); [reflexivity|]. simpl.
    rewrite (detect_body_eq (detector w) (messageText m)). apply Hbody.
  - unfold detectAsync. destruct (isBlank m); [reflexivity|]. simpl.
    destruct (ensureInitialized_cases (ByDetectAsync (messageText m)) w)
      as [[Hi ->]|[(Hi & _ & ->)|(Hi & _ & ->)]]; rewrite Hi; simpl;
      rewrite ?Hbody; reflexivity.
  - intros d -> -> ->. reflexivity.
Qed.

(** X2. The containment and exact tiers look only at the lowercased
    message: when a message is a containment or an exact match on a ready
    engine, every message with the same lowercased text gets the very same
    result from both entry points. *)
Theorem lower_tiers_ignore_case w msg msg' :
  isInitialized (detector w) = true ->
  msg <> EmptyString ->
  toLowerCase msg' = toLowerCase msg ->
  matchType (snd (detect (Some msg) w)) = Some "contains" \/
  matchType (snd (detect (Some msg) w)) = Some "exact" ->
  detect (Some msg') w = detect (Some msg) w /\
  detectAsync (Some msg') w = detectAsync (Some msg) w.
Proof.
  intros Hi Hm Hl Ht.
  assert (Hm' : msg' <> EmptyString).
  { apply toLowerCase_nonempty_inv. rewrite Hl. apply toLowerCase_nonempty, Hm. }
  rewrite (detect_ready _ _ Hi Hm) in Ht. simpl in Ht.
  rewrite (detect_body_eq (detector w) msg) in Ht.
  assert (Hb : detectAsync_body (detector w) msg' = detectAsync_body (detector w) msg).
  { revert Ht. unfold detectAsync_body. rewrite Hl.
    destruct (containsLoop _ _) as [r|]; [reflexivity|].
    destruct (exactPatterns _ !! _); [reflexivity|].
    destruct (regexLoop msg _) as [r|] eqn:Er.
    - rewrite (regexLoop_matchType _ _ _ Er). intros [[=]|[=]].
    - intros [[=]|[=]]. }
  rewrite !detect_ready, !detectAsync_ready by assumption.
  rewrite (detect_body_eq (detector w) msg), (detect_body_eq (detector w) msg'), Hb. auto.
Qed.

(** X3. A containment rule whose pattern is the empty text occurs in every
    message: once it is loaded, every non-empty message is reported as a
    containment match by both entry points, so the exact and the regex tier
    are never reached. *)
Theorem empty_contains_pattern_matches_all rules now caller w0 r msg :
  In r rules ->
  ErrorRule.matchType r = "contains" ->
  ErrorRule.pattern r = EmptyString ->
  msg <> EmptyString ->
  let w := after (rulesArrive caller (Rules rules) now w0) in
  matched (snd (detect (Some msg) w)) = true /\
  matchType (snd (detect (Some msg) w)) = Some "contains" /\
  detectAsync (Some msg) w = Resolved (snd (detect (Some msg) w)) w.
Proof.
  intros Hin Ht Hp Hm w.
  destruct (rulesArrive_settles caller (Rules rules) now w0) as (x & w' & E & Hd & _).
  subst w. rewrite E. simpl.
  assert (Hi : isInitialized (detector w') = true)
    by (rewrite Hd; destruct caller; reflexivity).
  assert (Hc : containsPatterns (detector w') = omap containsEntry rules)
    by (rewrite Hd; destruct caller; reflexivity).
  assert (He : In (ContainsPattern.mk EmptyString (ErrorRule.category r)
                     (ErrorRule.description r)) (containsPatterns (detector w'))).
  { rewrite Hc. apply list_elem_of_In, list_elem_of_omap. exists r.
    split; [apply list_elem_of_In, Hin|].
    unfold containsEntry. rewrite Ht, Hp. reflexivity. }
  destruct (contains_tier_wins (detector w') msg _ He (includes_anywhere_empty _)) as (p & _ & Hb).
  rewrite (detect_ready _ _ Hi Hm), (detectAsync_ready _ _ Hi Hm). simpl.
  rewrite (detect_body_eq (detector w') msg), Hb. auto.
Qed.

Lemma startsWith_split s t : startsWith s t = true -> exists post, s = t +:+ post.
Proof.
  revert s. induction t as [|c t IH]; intros s; [exists s; reflexivity|].
  destruct s as [|a s]; simpl; [discriminate|].
  destruct (decide (a = c)) as [->|]; [|discriminate].
  intros H. destruct (IH _ H) as (post & ->). exists post. reflexivity.
Qed.

Lemma includes_split s t :
  includes s t = true -> exists pre post, s = pre +:+ t +:+ post.
Proof.
  induction s as [|a s IH]; intros H.
  - change (startsWith EmptyString t || false = true) in H. rewrite orb_false_r in H.
    destruct (startsWith_split _ _ H) as (post & E). exists EmptyString, post. exact E.
  - change (startsWith (String a s) t || includes s t = true) in H.
    apply orb_true_iff in H as [H|H].
    + destruct (startsWith_split _ _ H) as (post & E). exists EmptyString, post. exact E.
    + destruct (IH H) as (pre & post & ->). exists (String a pre), post. reflexivity.
Qed.

Lemma includes_trans a b c :
  includes a b = true -> includes b c = true -> includes a c = true.
Proof.
  intros Hab Hbc. destruct (includes_split _ _ Hab) as (pre & post & ->).
  apply includes_app_l, includes_app_r, Hbc.
Qed.

Lemma includes_nonempty s t :
  includes s t = true -> t <> EmptyString -> s <> EmptyString.
Proof.
  intros H Ht ->. destruct t; [congruence | discriminate].
Qed.

(** X4. Containment is substring search on the lowercased text, so a
    longer message cannot lose a containment match: if a message is a
    containment match on a ready engine, so is every message whose
    lowercased text contains the lowercased text of the first, for both
    entry points. *)
Theorem containment_survives_extension w msg msg' :
  isInitialized (detector w) = true ->
  msg <> EmptyString ->
  includes (toLowerCase msg') (toLowerCase msg) = true ->
  matchType (snd (detect (Some msg) w)) = Some "contains" ->
  matchType (snd (detect (Some msg') w)) = Some "contains" /\
  detectAsync (Some msg') w = Resolved (snd (detect (Some msg') w)) w.
Proof.
  intros Hi Hm Hin Ht.
  assert (Hm' : msg' <> EmptyString).
  { apply toLowerCase_nonempty_inv.
    apply (includes_nonempty _ _ Hin), toLowerCase_nonempty, Hm. }
  rewrite (detect_ready _ _ Hi Hm) in Ht. simpl in Ht.
  rewrite (detect_body_eq (detector w) msg) in Ht. apply body_contains_iff in Ht.
  assert (Hb : matchType (detectAsync_body (detector w) msg') = Some "contains").
  { apply body_contains_iff. revert Ht. apply containsLoop_mono. intros t H.
    exact (includes_trans _ _ _ Hin H). }
  rewrite (detect_ready _ _ Hi Hm'), (detectAsync_ready _ _ Hi Hm'). simpl.
  rewrite (detect_body_eq (detector w) msg'). auto.
Qed.

(** X5. The exact tier trims the message: when a message is an exact match
    on a ready engine, the same message with white space before and after
    it gets the same result, provided no containment entry occurs in the
    padded text. *)
Theorem exact_match_ignores_padding w pre msg post :
  isInitialized (detector w) = true ->
  msg <> EmptyString ->
  allWhiteSpace pre = true ->
  allWhiteSpace post = true ->
  matchType (snd (detect (Some msg) w)) = Some "exact" ->
  containsLoop (toLowerCase (pre +:+ msg +:+ post)) (containsPatterns (detector w)) = None ->
  detect (Some (pre +:+ msg +:+ post)) w = detect (Some msg) w /\
  detectAsync (Some (pre +:+ msg +:+ post)) w = detectAsync (Some msg) w.
Proof.
  intros Hi Hm Hpre Hpost Ht Hc.
  assert (Hm' : pre +:+ msg +:+ post <> EmptyString) by (apply append_nonempty, Hm).
  rewrite (detect_ready _ _ Hi Hm) in Ht. simpl in Ht.
  rewrite (detect_body_eq (detector w) msg) in Ht.
  apply body_exact_iff in Ht as [Hc0 [e He]].
  assert (Hk : trim (toLowerCase (pre +:+ msg +:+ post)) = trim (toLowerCase msg)).
  { rewrite !toLowerCase_app. apply trim_padding; rewrite toLowerCase_allWhiteSpace; assumption. }
  assert (Hb : detectAsync_body (detector w) (pre +:+ msg +:+ post)
               = detectAsync_body (detector w) msg).
  { unfold detectAsync_body. rewrite Hc, Hc0, Hk, He. reflexivity. }
  rewrite !detect_ready, !detectAsync_ready by assumption.
  rewrite (detect_body_eq (detector w) msg),
    (detect_body_eq (detector w) (pre +:+ msg +:+ post)), Hb. auto.
Qed.

(** ** More on what a reload installs *)

Lemma countType_cons t r rules :
  countType t (r :: rules) =
    (if String.eqb (ErrorRule.matchType r) t then 1 else 0) + countType t rules.
Proof. unfold countType. simpl. destruct (String.eqb _ _); reflexivity. Qed.

Lemma rule_tally r (m : gmap string ExactPattern.t) :
  List.length (option_list (containsEntry r)) =
    (if String.eqb (ErrorRule.matchType r) "contains" then 1 else 0) /\
  size (bindExact m r) <=
    size m + (if String.eqb (ErrorRule.matchType r) "exact" then 1 else 0) /\
  List.length (option_list (regexEntry r)) + (if isRedosRule r then 1 else 0) <=
    (if String.eqb (ErrorRule.matchType r) "regex" then 1 else 0) /\
  (if String.eqb (ErrorRule.matchType r) "contains" then 1 else 0) +
  (if String.eqb (ErrorRule.matchType r) "exact" then 1 else 0) +
  (if String.eqb (ErrorRule.matchType r) "regex" then 1 else 0) <= 1.
Proof.
  unfold containsEntry, bindExact, regexEntry, isRedosRule.
  destruct (String.eqb_spec (ErrorRule.matchType r) "contains") as [E|?];
    [rewrite E; simpl; lia|].
  destruct (String.eqb_spec (ErrorRule.matchType r) "exact") as [E|?].
  { rewrite E. simpl. split; [reflexivity|]. split; [|lia].
    rewrite map_size_insert.
    destruct (m !! toLowerCase (ErrorRule.pattern r)); simpl; lia. }
  destruct (String.eqb (ErrorRule.matchType r) "regex"); simpl; [|lia].
  destruct (safeRegex _); simpl; [|lia].
  destruct (newRegExp _); simpl; lia.
Qed.

Lemma rules_tally rules : forall m : gmap string ExactPattern.t,
  List.length (omap containsEntry rules) = countType "contains" rules /\
  size (fold_left bindExact rules m) <= size m + countType "exact" rules /\
  List.length (omap regexEntry rules) + List.length (List.filter isRedosRule rules)
    <= countType "regex" rules /\
  countType "contains" rules + countType "exact" rules + countType "regex" rules
    <= List.length rules.
Proof.
  induction rules as [|r rules IH]; intros m; [simpl; unfold countType; simpl; lia|].
  rewrite !countType_cons.
  destruct (IH (bindExact m r)) as (H1 & H2 & H3 & H4).
  destruct (rule_tally r m) as (R1 & R2 & R3 & R4).
  simpl.
  destruct (containsEntry r), (regexEntry r), (isRedosRule r);
    simpl in *; unfold omap in *; lia.
Qed.

Lemma rulesArrive_Rules_logged caller rules now w :
  logged (after (rulesArrive caller (Rules rules) now w)) =
    (logged (loopWorld (loadRules rules
                          {| loopWorld := withDetector clearIndices w;
                             validRegexCount := 0; skippedRedosCount := 0 |}))
     ++ [Info_Loaded (List.length rules)
           (List.length (omap containsEntry rules))
           (size (fold_left bindExact rules ∅))
           (List.length (omap regexEntry rules))
           (List.length (List.filter isRedosRule rules))])%list.
Proof.
  unfold rulesArrive, reload_resumed, reload_try.
  destruct (loadRules_counts rules
              {| loopWorld := withDetector clearIndices w;
                 validRegexCount := 0; skippedRedosCount := 0 |}) as [Hv Hs].
  destruct caller as [| |[|msg]]; simpl;
    rewrite loadRules_detector, Hv, Hs; reflexivity.
Qed.

(** X6. After a reload that succeeded, [getStats()] counts one containment
    entry per contains rule fetched, at most one exact entry per exact rule
    (rules with the same lowercased pattern share a key), and at most one
    regex entry per regex rule that the screen did not refuse; the total
    never exceeds the number of rules fetched, the reload time is the clock
    value read, and the last log line carries exactly these counts. *)
Theorem loaded_counts rules now caller w :
  let w' := after (rulesArrive caller (Rules rules) now w) in
  let s := getStats (detector w') in
  containsCount s = countType "contains" rules /\
  exactCount s <= countType "exact" rules /\
  regexCount s + List.length (List.filter isRedosRule rules) <= countType "regex" rules /\
  totalCount s <= List.length rules /\
  stats_lastReloadTime s = now /\
  stats_isLoading s = false /\
  last (logged w') =
    Some (Info_Loaded (List.length rules) (containsCount s) (exactCount s) (regexCount s)
            (List.length (List.filter isRedosRule rules))).
Proof.
  intros w' s.
  assert (Hl := rulesArrive_Rules_logged caller rules now w).
  destruct (rulesArrive_settles caller (Rules rules) now w) as (x & w2 & E & Hd & _).
  subst s w'. rewrite E in *. simpl in *. unfold getStats. rewrite Hl, Hd.
  destruct (rules_tally rules ∅) as (H1 & H2 & H3 & H4).
  rewrite map_size_empty in H2.
  destruct caller; simpl; rewrite last_snoc;
    (repeat split; [exact H1 | exact H2 | exact H3 | lia]).
Qed.

Lemma bindExact_lookup_other rules k : forall m : gmap string ExactPattern.t,
  Forall (fun r' => ErrorRule.matchType r' = "exact" ->
                    toLowerCase (ErrorRule.pattern r') <> k) rules ->
  fold_left bindExact rules m !! k = m !! k.
Proof.
  induction rules as [|r rules IH]; intros m H; [reflexivity|].
  inversion H as [|? ? Hr Hrest]; subst. simpl. rewrite (IH _ Hrest).
  unfold bindExact. destruct (String.eqb_spec (ErrorRule.matchType r) "exact") as [E|?];
    [|reflexivity].
  apply lookup_insert_ne, Hr, E.
Qed.

Lemma bindExact_lookup_origin rules k e : forall m : gmap string ExactPattern.t,
  fold_left bindExact rules m !! k = Some e ->
  m !! k = Some e \/
  exists r, In r rules /\ ErrorRule.matchType r = "exact" /\
            e = exactEntryOf r /\ k = toLowerCase (ErrorRule.pattern r).
Proof.
  induction rules as [|r rules IH]; intros m H; [left; exact H|].
  simpl in H. destruct (IH _ H) as [Hm | (r' & Hin & Ht & He & Hk)].
  - unfold bindExact in Hm.
    destruct (String.eqb_spec (ErrorRule.matchType r) "exact") as [E|?]; [|left; exact Hm].
    rewrite lookup_insert in Hm. case_decide as D; [|left; exact Hm].
    injection Hm as <-. right. exists r. simpl. auto.
  - right. exists r'. simpl. auto.
Qed.

(** X7. When several exact rules have the same lowercased pattern, the one
    fetched last owns the key: its entry is the one found under the key,
    and a message whose trimmed lowercased text is the key, and in which no
    containment entry occurs, is reported with that rule's category. *)
Theorem exact_last_rule_wins rules1 r rules2 now caller w0 msg :
  ErrorRule.matchType r = "exact" ->
  Forall (fun r' => ErrorRule.matchType r' = "exact" ->
                    toLowerCase (ErrorRule.pattern r') <> toLowerCase (ErrorRule.pattern r))
    rules2 ->
  msg <> EmptyString ->
  trim (toLowerCase msg) = toLowerCase (ErrorRule.pattern r) ->
  let w := after (rulesArrive caller (Rules (rules1 ++ r :: rules2)) now w0) in
  containsLoop (toLowerCase msg) (containsPatterns (detector w)) = None ->
  exactPatterns (detector w) !! toLowerCase (ErrorRule.pattern r) = Some (exactEntryOf r) /\
  detect (Some msg) w = (w, exactResult (exactEntryOf r)) /\
  detectAsync (Some msg) w = Resolved (exactResult (exactEntryOf r)) w.
Proof.
  intros Ht Hlast Hm Hk w.
  destruct (rulesArrive_settles caller (Rules (rules1 ++ r :: rules2)) now w0)
    as (x & w' & E & Hd & _).
  subst w. rewrite E. simpl. intros Hc.
  assert (Hi : isInitialized (detector w') = true)
    by (rewrite Hd; destruct caller; reflexivity).
  assert (He : exactPatterns (detector w') !! toLowerCase (ErrorRule.pattern r)
               = Some (exactEntryOf r)).
  { assert (Hx : exactPatterns (detector w')
                 = fold_left bindExact (rules1 ++ r :: rules2) ∅)
      by (rewrite Hd; destruct caller; reflexivity).
    rewrite Hx, fold_left_app. simpl. rewrite (bindExact_lookup_other _ _ _ Hlast).
    unfold bindExact. rewrite Ht. simpl. apply lookup_insert_eq. }
  assert (Hb : detectAsync_body (detector w') msg = exactResult (exactEntryOf r)).
  { unfold detectAsync_body. rewrite Hc, Hk, He. reflexivity. }
  rewrite (detect_ready _ _ Hi Hm), (detectAsync_ready _ _ Hi Hm),
    (detect_body_eq (detector w') msg), Hb. auto.
Qed.

(** X8. A reload that succeeds replaces the snapshot wholesale: the
    detector it leaves is determined by the rules fetched and the clock
    value alone, whatever the detector held before and whoever called
    [reload]. *)
Theorem reload_replaces_snapshot rules now caller1 caller2 w1 w2 :
  detector (after (rulesArrive caller1 (Rules rules) now w1)) =
  detector (after (rulesArrive caller2 (Rules rules) now w2)).
Proof.
  destruct (rulesArrive_settles caller1 (Rules rules) now w1) as (x1 & w1' & -> & H1 & _).
  destruct (rulesArrive_settles caller2 (Rules rules) now w2) as (x2 & w2' & -> & H2 & _).
  simpl. rewrite H1, H2. destruct caller1, caller2; reflexivity.
Qed.

Lemma unknown_rule_entries r :
  ErrorRule.matchType r <> "contains" ->
  ErrorRule.matchType r <> "exact" ->
  ErrorRule.matchType r <> "regex" ->
  regexEntry r = None /\ containsEntry r = None /\ forall m, bindExact m r = m.
Proof.
  intros H1 H2 H3. unfold regexEntry, containsEntry, bindExact.
  destruct (String.eqb_spec (ErrorRule.matchType r) "contains"); [contradiction|].
  destruct (String.eqb_spec (ErrorRule.matchType r) "exact"); [contradiction|].
  destruct (String.eqb_spec (ErrorRule.matchType r) "regex"); [contradiction|].
  auto.
Qed.

(** X9. A rule whose match type is none of "contains", "exact" and "regex"
    (the comparison is exact, so "Contains" is such a type) only produces a
    warning: the iteration leaves the detector and the counters as they
    were, and the reload ends with the detector it would have without the
    rule. *)
Theorem unknown_matchType_skipped rules1 r rules2 now caller w st :
  ErrorRule.matchType r <> "contains" ->
  ErrorRule.matchType r <> "exact" ->
  ErrorRule.matchType r <> "regex" ->
  loadRule st r = inLoop (log (Warn_UnknownMatchType (ErrorRule.matchType r))) st /\
  detector (after (rulesArrive caller (Rules (rules1 ++ r :: rules2)) now w)) =
  detector (after (rulesArrive caller (Rules (rules1 ++ rules2)) now w)).
Proof.
  intros H1 H2 H3.
  destruct (unknown_rule_entries r H1 H2 H3) as (Hr & Hc & He).
  split.
  - unfold loadRule.
    destruct (String.eqb_spec (ErrorRule.matchType r) "contains"); [contradiction|].
    destruct (String.eqb_spec (ErrorRule.matchType r) "exact"); [contradiction|].
    destruct (String.eqb_spec (ErrorRule.matchType r) "regex"); [contradiction|].
    reflexivity.
  - destruct (rulesArrive_settles caller (Rules (rules1 ++ r :: rules2)) now w)
      as (x1 & w1' & -> & Hd1 & _).
    destruct (rulesArrive_settles caller (Rules (rules1 ++ rules2)) now w)
      as (x2 & w2' & -> & Hd2 & _).
    simpl. rewrite Hd1, Hd2.
    assert (Hs : settledDetector (Rules (rules1 ++ r :: rules2)) now (detector w)
                 = settledDetector (Rules (rules1 ++ rules2)) now (detector w)).
    { unfold settledDetector. rewrite !omap_app, !fold_left_app. simpl.
      rewrite Hr, Hc, He. reflexivity. }
    rewrite Hs. reflexivity.
Qed.

(** X10. Every match reported after a reload comes from a rule that was
    fetched: the category reported is that rule's, and either it is a
    contains rule whose lowercased pattern is the pattern reported and
    occurs in the lowercased message, or an exact rule whose lowercased
    pattern is the pattern reported and equals the trimmed lowercased
    message, or a regex rule that passed the screen, compiled, and whose
    expression matches the message. *)
Theorem match_comes_from_a_rule rules now caller w0 m :
  let w := after (rulesArrive caller (Rules rules) now w0) in
  let res := snd (detect m w) in
  matched res = true ->
  exists r,
    In r rules /\ category res = Some (ErrorRule.category r) /\
    ((ErrorRule.matchType r = "contains" /\ matchType res = Some "contains" /\
      pattern res = Some (toLowerCase (ErrorRule.pattern r)) /\
      includes (toLowerCase (messageText m)) (toLowerCase (ErrorRule.pattern r)) = true) \/
     (ErrorRule.matchType r = "exact" /\ matchType res = Some "exact" /\
      pattern res = Some (toLowerCase (ErrorRule.pattern r)) /\
      trim (toLowerCase (messageText m)) = toLowerCase (ErrorRule.pattern r)) \/
     (ErrorRule.matchType r = "regex" /\ matchType res = Some "regex" /\
      safeRegex (ErrorRule.pattern r) = true /\
      exists re, newRegExp (ErrorRule.pattern r) = Some re /\
                 pattern res = Some (source re) /\ test re (messageText m) = true)).
Proof.
  intros w res.
  destruct (rulesArrive_settles caller (Rules rules) now w0) as (x & w' & E & Hd & _).
  subst res w. rewrite E. simpl.
  assert (Hi : isInitialized (detector w') = true)
    by (rewrite Hd; destruct caller; reflexivity).
  assert (Hc : containsPatterns (detector w') = omap containsEntry rules)
    by (rewrite Hd; destruct caller; reflexivity).
  assert (Hx : exactPatterns (detector w') = fold_left bindExact rules ∅)
    by (rewrite Hd; destruct caller; reflexivity).
  assert (Hr : regexPatterns (detector w') = omap regexEntry rules)
    by (rewrite Hd; destruct caller; reflexivity).
  unfold detect. rewrite Hi. simpl.
  destruct (isBlank m); [discriminate|]. simpl. unfold detect_body.
  destruct (containsLoop _ _) as [res|] eqn:Ec.
  { intros _. apply containsLoop_Some in Ec as (b & p & t & Hl & -> & Hp & _).
    assert (Hin : In p (omap containsEntry rules))
      by (rewrite <- Hc, Hl; apply in_or_app; right; left; reflexivity).
    apply list_elem_of_In, list_elem_of_omap in Hin as (r & Hin & Hentry).
    apply list_elem_of_In in Hin. exists r. split; [exact Hin|].
    unfold containsEntry in Hentry.
    destruct (String.eqb_spec (ErrorRule.matchType r) "contains") as [Et|?]; [|discriminate].
    injection Hentry as <-. simpl in *. auto 10. }
  destruct (exactPatterns _ !! _) as [e|] eqn:Ee.
  { intros _. rewrite Hx in Ee.
    apply bindExact_lookup_origin in Ee as [Ee | (r & Hin & Ht & -> & Hk)];
      [rewrite lookup_empty in Ee; discriminate|].
    exists r. split; [exact Hin|]. simpl. auto 10. }
  destruct (regexLoop _ _) as [res|] eqn:Er; [|discriminate].
  intros _. apply regexLoop_Some in Er as (p & Hin & -> & Hp).
  rewrite Hr in Hin. apply list_elem_of_In, list_elem_of_omap in Hin as (r & Hin & Hentry).
  apply list_elem_of_In in Hin. apply regexEntry_Some in Hentry as (H1 & H2 & H3 & H4).
  exists r. split; [exact Hin|]. simpl. rewrite H4. split; [reflexivity|].
  right. right. eauto 10.
Qed.

Lemma failed_reload_logs_once_aux caller e now w :
  logged (after (rulesArrive caller (Failed e) now w)) =
    (logged w ++ [if includes e tableMissingText
                  then Warn_TableNotFound else Error_ReloadFailed e])%list.
Proof.
  unfold rulesArrive, reload_resumed, reload_try, reload_catch.
  destruct (includes e tableMissingText), caller as [| |[|msg]]; reflexivity.
Qed.

(** X11. A fetch that fails writes exactly one log line, whoever called
    [reload]: a warning when the error message contains the text saying
    that the relation error_rules does not exist, otherwise an error that
    carries the message. *)
Theorem failed_reload_logs_once caller e now w :
  logged (after (rulesArrive caller (Failed e) now w)) =
    (logged w ++ [if includes e tableMissingText
                  then Warn_TableNotFound else Error_ReloadFailed e])%list.
Proof. apply failed_reload_logs_once_aux. Qed.

(** X12. When a fetch settles the loading flag goes down.  The initialised
    flag goes up when the fetch delivered rules, and also when it failed
    but [ensureInitialized] had started the reload; a failed reload started
    by the change listener or through the exported [reload()] leaves the
    flag as it was. *)
Theorem settle_sets_flags caller res now w :
  isLoading (detector (after (rulesArrive caller res now w))) = false /\
  isInitialized (detector (after (rulesArrive caller res now w))) =
    match res, caller with
    | Rules _, _ => true
    | Failed _, ByEnsure _ => true
    | Failed _, _ => isInitialized (detector w)
    end.
Proof.
  destruct (rulesArrive_settles caller res now w) as (x & w' & -> & Hd & _).
  simpl. rewrite Hd. destruct caller, res; split; reflexivity.
Qed.

(** ** Turns of the event loop *)

Lemma extendsLog_same w w' : logged w' = logged w -> extendsLog w w'.
Proof. intros H. exists []. rewrite H, app_nil_r. auto. Qed.

Lemma extendsLog_log e w : isHandlerLog e = false -> extendsLog w (log e w).
Proof. intros H. exists [e]. simpl. rewrite H. auto. Qed.

Lemma extendsLog_trans w1 w2 w3 : extendsLog w1 w2 -> extendsLog w2 w3 -> extendsLog w1 w3.
Proof.
  intros (l1 & E1 & H1) (l2 & E2 & H2). exists (l1 ++ l2)%list.
  rewrite E2, E1, app_assoc, forallb_app, H1, H2. auto.
Qed.

Lemma loadRule_extendsLog st r : extendsLog (loopWorld st) (loopWorld (loadRule st r)).
Proof.
  load_cases r;
    first [ apply extendsLog_same; reflexivity | apply extendsLog_log; reflexivity ].
Qed.

Lemma loadRules_extendsLog rules : forall st,
  extendsLog (loopWorld st) (loopWorld (loadRules rules st)).
Proof.
  induction rules as [|r rules IH]; intros st; [apply extendsLog_same; reflexivity|].
  unfold loadRules in *. simpl.
  eapply extendsLog_trans; [apply loadRule_extendsLog | apply IH].
Qed.

Lemma rulesArrive_extendsLog caller res now w :
  extendsLog w (after (rulesArrive caller res now w)).
Proof.
  destruct res as [rules|e].
  - destruct (loadRules_extendsLog rules
                {| loopWorld := withDetector clearIndices w;
                   validRegexCount := 0; skippedRedosCount := 0 |}) as (l & El & Hl).
    simpl in El. unfold extendsLog. rewrite rulesArrive_Rules_logged, El, <- app_assoc.
    eexists. split; [reflexivity|]. rewrite forallb_app, Hl. reflexivity.
  - unfold extendsLog. rewrite failed_reload_logs_once_aux. eexists. split; [reflexivity|].
    destruct (includes e tableMissingText); reflexivity.
Qed.

Lemma reload_quiet caller w : quiet w (after (reload caller w)).
Proof.
  destruct (reload_cases caller w) as [[_ ->]|[_ ->]]; simpl;
    (split; [reflexivity|]); (split; [auto|]); (split; [simpl; lia|]);
    first [ apply extendsLog_log; reflexivity
          | exists [Info_Reloading]; split; reflexivity ].
Qed.

Lemma quiet_refl w : quiet w w.
Proof.
  split; [reflexivity|]. split; [auto|]. split; [lia|]. apply extendsLog_same; reflexivity.
Qed.

Lemma park_quiet t w : quiet w (park t w).
Proof.
  split; [reflexivity|]. split; [auto|]. split; [simpl; lia|].
  apply extendsLog_same; reflexivity.
Qed.

Lemma ensureInitialized_quiet c w : quiet w (after (ensureInitialized c w)).
Proof.
  destruct (ensureInitialized_cases c w) as [[_ ->]|[(_ & _ & ->)|(_ & _ & ->)]]; simpl.
  - apply quiet_refl.
  - apply park_quiet.
  - apply reload_quiet.
Qed.

Lemma detect_quiet m w : quiet w (fst (detect m w)).
Proof.
  rewrite detect_world. destruct (isInitialized _);
    [apply quiet_refl | apply ensureInitialized_quiet].
Qed.

Lemma detectAsync_quiet m w : quiet w (after (detectAsync m w)).
Proof.
  destruct (detectAsync_after m w) as [-> | ->];
    [apply quiet_refl | apply ensureInitialized_quiet].
Qed.

Lemma timerFires_quiet c w ts : quiet w (after (timerFires c (withPending ts w))).
Proof.
  unfold timerFires. destruct (isLoading _); simpl; [|rewrite ensured_after];
    (split; [reflexivity|]); (split; [auto|]); (split; [simpl; lia|]);
    apply extendsLog_same; reflexivity.
Qed.

Lemma rulesArrive_Failed_quiet caller e now w ts :
  quiet w (after (rulesArrive caller (Failed e) now (withPending ts w))).
Proof.
  assert (Hl := rulesArrive_extendsLog caller (Failed e) now (withPending ts w)).
  destruct (rulesArrive_settles caller (Failed e) now (withPending ts w))
    as (x & w' & E & Hd & _ & _ & Hf).
  rewrite E in *. simpl in *.
  split; [rewrite Hd; destruct caller; reflexivity|].
  split; [rewrite Hd; destruct caller; simpl; auto|].
  split; [lia | exact Hl].
Qed.

(** X13. The indices and the reload time change in one place only.  The
    settlement of a fetch that delivered rules installs the entries of
    exactly those rules, records the clock value read at that settlement,
    raises the initialised flag and lowers the loading flag.  Every other
    turn of the event loop (the listener's event, a [reload()] call, a
    [detect] or [detectAsync] call, a firing timer, the settlement of a
    fetch that failed) leaves the three indices and the reload time exactly
    as they were. *)
Theorem snapshot_changes_only_on_success w t w' :
  TurnStep w t w' ->
  match t with
  | SettleTurn _ (Rules rules) now =>
      snapshot (detector w') =
        (omap regexEntry rules, omap containsEntry rules,
         fold_left bindExact rules ∅, now) /\
      isInitialized (detector w') = true /\
      isLoading (detector w') = false
  | _ => snapshot (detector w') = snapshot (detector w)
  end.
Proof.
  intros S. destruct S as [w|w|m w|m w|w caller res now before rest Hp|w c before rest Hp].
  - apply reload_quiet.
  - apply reload_quiet.
  - apply detect_quiet.
  - apply detectAsync_quiet.
  - destruct res as [rules|e]; [|apply rulesArrive_Failed_quiet].
    destruct (rulesArrive_settles caller (Rules rules) now (withPending (before ++ rest) w))
      as (x & w' & -> & Hd & _).
    simpl. rewrite Hd. destruct caller; auto.
  - apply timerFires_quiet.
Qed.

(** X14. No turn of the event loop lowers the initialised flag, none
    issues more than one store fetch, and none rewrites the log: the log of
    before is a prefix of the log of after. *)
Theorem turns_are_monotone w w' :
  Step w w' ->
  (isInitialized (detector w) = true -> isInitialized (detector w') = true) /\
  storeFetches w <= storeFetches w' <= S (storeFetches w) /\
  exists l, logged w' = (logged w ++ l)%list.
Proof.
  assert (Hq : forall w w', quiet w w' ->
                 (isInitialized (detector w) = true -> isInitialized (detector w') = true) /\
                 storeFetches w <= storeFetches w' <= S (storeFetches w) /\
                 exists l, logged w' = (logged w ++ l)%list).
  { intros v v' (_ & Hi & Hf & (l & Hl & _)). eauto. }
  intros S. destruct S as [w|w|m w|m w|w caller res now before rest Hp|w c before rest Hp].
  - apply Hq, reload_quiet.
  - apply Hq, reload_quiet.
  - apply Hq, detect_quiet.
  - apply Hq, detectAsync_quiet.
  - destruct res as [rules|e]; [|apply Hq, rulesArrive_Failed_quiet].
    destruct (rulesArrive_extendsLog caller (Rules rules) now (withPending (before ++ rest) w))
      as (l & Hl & _).
    destruct (rulesArrive_settles caller (Rules rules) now (withPending (before ++ rest) w))
      as (x & w' & E & Hd & _ & _ & Hf).
    rewrite E in *. simpl in *.
    split; [intros _; rewrite Hd; destruct caller; reflexivity|].
    split; [lia | eauto].
  - apply Hq, timerFires_quiet.
Qed.

Lemma Step_extendsLog w w' : Step w w' -> extendsLog w w'.
Proof.
  intros S. destruct S as [w|w|m w|m w|w caller res now before rest Hp|w c before rest Hp].
  - apply reload_quiet.
  - apply reload_quiet.
  - apply detect_quiet.
  - apply detectAsync_quiet.
  - apply (rulesArrive_extendsLog caller res now (withPending (before ++ rest) w)).
  - apply timerFires_quiet.
Qed.

(** X15. No call is ever rejected: in every world the engine can be in,
    [reload], [ensureInitialized] and [detectAsync] resolve or wait, a
    settling fetch and a firing timer resolve or wait, and the log holds no
    line written by the [catch] handlers attached to the listener's reload
    and to the initialisation started by [detect]. *)
Theorem calls_never_reject w caller c m res now :
  Reachable w ->
  forallb (fun e => negb (isHandlerLog e)) (logged w) = true /\
  rejects (reload caller w) = false /\
  rejects (ensureInitialized c w) = false /\
  rejects (detectAsync m w) = false /\
  rejects (rulesArrive caller res now w) = false /\
  rejects (timerFires c w) = false.
Proof.
  intros Hr. split.
  { induction Hr as [|v v' _ IH S]; [reflexivity|].
    destruct (Step_extendsLog _ _ S) as (l & -> & Hl). rewrite forallb_app, IH, Hl. reflexivity. }
  split; [unfold reload; destruct (isLoading _); reflexivity|].
  split.
  { destruct (ensureInitialized_cases c w) as [[_ ->]|[(_ & _ & ->)|(_ & _ & ->)]];
      reflexivity. }
  split.
  { unfold detectAsync. destruct (isBlank m); [reflexivity|].
    destruct (ensureInitialized_cases (ByDetectAsync (messageText m)) w)
      as [[_ ->]|[(_ & _ & ->)|(_ & _ & ->)]]; reflexivity. }
  split.
  { destruct (rulesArrive_settles caller res now w) as (x & w' & -> & _). reflexivity. }
  unfold timerFires. destruct (isLoading _); [reflexivity|]. destruct c; reflexivity.
Qed.

(** ** Lookups during a cold start *)

Lemma runCall_effect c w :
  let starts := negb (isInitialized (detector w)) && negb (isLoading (detector w))
                && reachesEnsure c in
  snapshot (detector (runCall w c)) = snapshot (detector w) /\
  isInitialized (detector (runCall w c)) = isInitialized (detector w) /\
  isLoading (detector (runCall w c)) = isLoading (detector w) || starts /\
  storeFetches (runCall w c) = storeFetches w + (if starts then 1 else 0) /\
  fetchesInFlight (runCall w c) = fetchesInFlight w + (if starts then 1 else 0).
Proof.
  assert (He : forall k,
             let w' := after (ensureInitialized k w) in
             let starts := negb (isInitialized (detector w)) && negb (isLoading (detector w)) in
             snapshot (detector w') = snapshot (detector w) /\
             isInitialized (detector w') = isInitialized (detector w) /\
             isLoading (detector w') = isLoading (detector w) || starts /\
             storeFetches w' = storeFetches w + (if starts then 1 else 0) /\
             fetchesInFlight w' = fetchesInFlight w + (if starts then 1 else 0)).
  { intros k.
    destruct (ensureInitialized_cases k w) as [[Hi ->]|[(Hi & Hl & ->)|(Hi & Hl & ->)]];
      simpl; rewrite Hi, Hl || rewrite Hi; simpl.
    - rewrite orb_false_r. repeat split; lia.
    - rewrite fetchesInFlight_park. simpl. repeat split; lia.
    - unfold reload. rewrite Hl. simpl. rewrite fetchesInFlight_park. simpl.
      change (fetchesInFlight _) with (fetchesInFlight w) at 1.
      rewrite Hi. repeat split; lia. }
  destruct c as [m|m]; simpl.
  - rewrite detect_world, andb_true_r. destruct (isInitialized (detector w)) eqn:Hi.
    + simpl. rewrite orb_false_r. repeat split; first [assumption | lia].
    + specialize (He ByDetect). simpl in He. rewrite ?Hi in He. exact He.
  - unfold detectAsync. destruct (isBlank m); simpl.
    + rewrite andb_false_r, orb_false_r. repeat split; lia.
    + rewrite andb_true_r.
      specialize (He (ByDetectAsync (messageText m))). simpl in He.
      destruct (ensureInitialized _ w); exact He.
Qed.

(** X16. Lookups alone never cause a second fetch.  Whatever detection
    calls are made in a row, with whatever messages: on an engine that is
    initialised or loading they issue no fetch at all; on an idle engine
    that is not initialised they issue exactly one, as soon as one of them
    is a [detect] or a [detectAsync] with a message that is not blank.  The
    snapshot is left as it was. *)
Theorem lookups_fetch_at_most_once cs : forall w,
  let starts := negb (isInitialized (detector w)) && negb (isLoading (detector w))
                && existsb reachesEnsure cs in
  storeFetches (runCalls cs w) = storeFetches w + (if starts then 1 else 0) /\
  fetchesInFlight (runCalls cs w) = fetchesInFlight w + (if starts then 1 else 0) /\
  isInitialized (detector (runCalls cs w)) = isInitialized (detector w) /\
  snapshot (detector (runCalls cs w)) = snapshot (detector w).
Proof.
  induction cs as [|c cs IH]; intros w; simpl.
  - rewrite andb_false_r. repeat split; lia.
  - destruct (runCall_effect c w) as (Hs & Hi & Hl & Hf & Hn).
    destruct (IH (runCall w c)) as (Jf & Jn & Ji & Js).
    unfold runCalls in *. simpl. rewrite Jf, Jn, Ji, Js, Hs, Hi, Hl, Hf, Hn.
    destruct (isInitialized (detector w)), (isLoading (detector w)),
      (reachesEnsure c), (existsb reachesEnsure cs); simpl; repeat split; lia.
Qed.

Lemma inFlight_decompose (ts : list Task) :
  List.length (List.filter isAwaitingRules ts) = 1 ->
  exists before caller rest, ts = (before ++ AwaitingRules caller :: rest)%list.
Proof.
  induction ts as [|t ts IH]; simpl; [discriminate|].
  destruct t as [caller|c]; simpl.
  - intros _. exists [], caller, ts. reflexivity.
  - intros H. destruct (IH H) as (b & caller & r & ->).
    exists (Polling c :: b), caller, r. reflexivity.
Qed.

Lemma TurnStep_loading w t w' :
  TurnStep w t w' ->
  isLoading (detector w) = true ->
  isLoading (detector w') =
    match t with
    | SettleTurn _ _ _ => false
    | _ => true
    end.
Proof.
  intros S Hl. destruct S as [w|w|m w|m w|w caller res now before rest Hp|w c before rest Hp].
  - unfold reload. rewrite Hl. exact Hl.
  - unfold reload. rewrite Hl. exact Hl.
  - destruct (runCall_effect (Sync m) w) as (_ & _ & H & _). simpl in H.
    rewrite H, Hl. reflexivity.
  - destruct (runCall_effect (Async m) w) as (_ & _ & H & _). simpl in H.
    rewrite H, Hl. reflexivity.
  - destruct (rulesArrive_settles caller res now (withPending (before ++ rest) w))
      as (x & w' & -> & Hd & _).
    simpl. rewrite Hd. destruct caller, res; reflexivity.
  - unfold timerFires. simpl. rewrite Hl. exact Hl.
Qed.

(** X17. The loading flag is lowered by the settlement of the fetch and by
    nothing else.  In every world the engine can be in, when the flag is up
    one reload is parked on its fetch; the settlement of that fetch is a
    possible turn, and it lowers the flag whether rules arrive or the fetch
    fails; every other turn (calls, events, timers) leaves the flag up.
    The code sets no time limit on the fetch: for as long as it does not
    settle the flag stays up. *)
Theorem loading_flag_lowered_only_by_settlement w :
  Reachable w ->
  isLoading (detector w) = true ->
  (exists before caller rest,
     pending w = (before ++ AwaitingRules caller :: rest)%list /\
     forall res now,
       let w' := after (rulesArrive caller res now (withPending (before ++ rest) w)) in
       TurnStep w (SettleTurn caller res now) w' /\
       isLoading (detector w') = false /\
       stats_isLoading (getStats (detector w')) = false) /\
  (forall t w',
     TurnStep w t w' ->
     isLoading (detector w') =
       match t with
       | SettleTurn _ _ _ => false
       | _ => true
       end) /\
  (forall ts v,
     Run w ts v ->
     forallb (fun t => match t with SettleTurn _ _ _ => false | _ => true end) ts = true ->
     isLoading (detector v) = true).
Proof.
  intros Hr Hl. destruct (Reachable_Invariant w Hr) as (Hf & _).
  rewrite Hl in Hf. destruct (inFlight_decompose _ Hf) as (b & caller & r & Hp).
  split; [|split].
  - exists b, caller, r. split; [exact Hp|]. intros res now w'. subst w'.
    split; [apply TurnStep_rules, Hp|].
    destruct (rulesArrive_settles caller res now (withPending (b ++ r) w))
      as (x & w' & -> & Hd & _).
    simpl. rewrite Hd. destruct caller, res; auto.
  - intros t w' S. apply (TurnStep_loading _ _ _ S Hl).
  - intros ts v R. clear Hr Hf Hp. induction R as [|u t u' ts u'' S _ IH]; [auto|].
    simpl. intros H. apply andb_true_iff in H as [Ht Hts].
    apply IH; [|exact Hts].
    rewrite (TurnStep_loading _ _ _ S Hl). destruct t; [reflexivity.. | discriminate | reflexivity].
Qed.

Lemma uninitialized_body_misses w msg :
  Reachable w -> isInitialized (detector w) = false ->
  detectAsync_body (detector w) msg = notMatched.
Proof.
  intros Hr Hi. destruct (Reachable_Invariant w Hr) as (_ & He & _).
  destruct (He Hi) as (H1 & H2 & H3).
  unfold detectAsync_body. rewrite H1, H2, H3, lookup_empty. reflexivity.
Qed.

Lemma detect_result w msg :
  Reachable w -> msg <> EmptyString ->
  snd (detect (Some msg) w) = detectAsync_body (detector w) msg.
Proof.
  intros Hr Hm. destruct (isInitialized (detector w)) eqn:Hi.
  - rewrite (detect_ready _ _ Hi Hm). apply detect_body_eq.
  - rewrite (uninitialized_body_misses _ _ Hr Hi). unfold detect. rewrite Hi. reflexivity.
Qed.

(** X18. A lookup that had to wait gets what a lookup made at that moment
    gets.  In every world the engine can be in, for a message that is not
    empty: the [detectAsync] call that started the load resolves, when its
    fetch settles, to the value [detect] returns in the world the
    settlement leaves; and a [detectAsync] call that waited for someone
    else's load resolves, when its timer finds the loading flag down, to
    the value [detect] returns in that world. *)
Theorem deferred_lookup_agrees_with_detect w msg res now :
  Reachable w ->
  msg <> EmptyString ->
  (forall (before rest : list Task),
     pending w = (before ++ AwaitingRules (ByEnsure (ByDetectAsync msg)) :: rest)%list ->
     let w' := after (rulesArrive (ByEnsure (ByDetectAsync msg)) res now
                        (withPending (before ++ rest) w)) in
     rulesArrive (ByEnsure (ByDetectAsync msg)) res now (withPending (before ++ rest) w)
       = Resolved (Some (snd (detect (Some msg) w'))) w') /\
  (isLoading (detector w) = false ->
   timerFires (ByDetectAsync msg) w = Resolved (Some (snd (detect (Some msg) w))) w) /\
  (isLoading (detector w) = true ->
   timerFires (ByDetectAsync msg) w = Suspended (park (Polling (ByDetectAsync msg)) w)).
Proof.
  intros Hr Hm. split; [|split].
  - intros before rest Hp w'.
    assert (Hr' : Reachable w')
      by (eapply Reachable_step; [exact Hr | apply Step_rules, Hp]).
    subst w'.
    destruct (rulesArrive_settles (ByEnsure (ByDetectAsync msg)) res now
                (withPending (before ++ rest) w)) as (x & w' & E & _ & -> & _).
    rewrite E in *. simpl in *. rewrite (detect_result _ _ Hr' Hm). reflexivity.
  - intros Hl. unfold timerFires. rewrite Hl. simpl.
    rewrite (detect_result _ _ Hr Hm). reflexivity.
  - intros Hl. unfold timerFires. rewrite Hl. reflexivity.
Qed.

Lemma runCall_pending c w :
  List.length (pending (runCall w c)) =
    List.length (pending w) +
    (if negb (isInitialized (detector w)) && reachesEnsure c then 1 else 0).
Proof.
  assert (He : forall k, isInitialized (detector w) = false ->
                         List.length (pending (after (ensureInitialized k w)))
                         = List.length (pending w) + 1).
  { intros k Hi.
    destruct (ensureInitialized_cases k w) as [[Hi' _]|[(_ & Hl & ->)|(_ & Hl & ->)]];
      [congruence | |]; simpl.
    - rewrite List.length_app. reflexivity.
    - unfold reload. rewrite Hl. simpl. rewrite List.length_app. reflexivity. }
  destruct c as [m|m]; simpl.
  - rewrite detect_world, andb_true_r. destruct (isInitialized (detector w)) eqn:Hi; simpl;
      [lia | apply He; reflexivity].
  - unfold detectAsync. destruct (isBlank m); simpl; [rewrite andb_false_r; simpl; lia|].
    rewrite andb_true_r.
    destruct (isInitialized (detector w)) eqn:Hi; simpl.
    + unfold ensureInitialized. rewrite Hi. simpl. lia.
    + specialize (He (ByDetectAsync (messageText m)) eq_refl).
      destruct (ensureInitialized _ w); exact He.
Qed.

(** X19. Until the engine is initialised every lookup leaves one parked
    call behind: each [detect], and each [detectAsync] with a message that
    is not blank, adds exactly one entry to the parked calls (the reload it
    started, or a polling timer), so a run of lookups during a cold start
    parks as many calls as it has such lookups.  On an initialised engine
    lookups park nothing. *)
Theorem cold_lookups_park_one_call_each cs : forall w,
  List.length (pending (runCalls cs w)) =
    List.length (pending w) +
    (if isInitialized (detector w) then 0
     else List.length (List.filter reachesEnsure cs)).
Proof.
  induction cs as [|c cs IH]; intros w; simpl.
  - destruct (isInitialized _); lia.
  - unfold runCalls in *. simpl. rewrite IH, runCall_pending.
    destruct (runCall_effect c w) as (_ & -> & _).
    destruct (isInitialized (detector w)), (reachesEnsure c); simpl; lia.
Qed.

(** ** Initialisation over whole runs *)

Lemma TurnStep_Step w t w' : TurnStep w t w' -> Step w w'.
Proof.
  intros S. destruct S as [w|w|m w|m w|w caller res now before rest Hp|w c before rest Hp].
  - apply Step_event.
  - apply Step_reload.
  - apply Step_detect.
  - apply Step_detectAsync.
  - apply Step_rules, Hp.
  - apply Step_timer, Hp.
Qed.

Lemma Run_Reachable w ts v : Run w ts v -> Reachable w -> Reachable v.
Proof.
  induction 1 as [|u t u' ts u'' S _ IH]; [auto|].
  intros Hr. apply IH. eapply Reachable_step; [exact Hr | eapply TurnStep_Step, S].
Qed.

Lemma TurnStep_flag w t w' :
  TurnStep w t w' ->
  isInitialized (detector w') = isInitialized (detector w) || raisesFlag t.
Proof.
  intros S. destruct S as [w|w|m w|m w|w caller res now before rest Hp|w c before rest Hp];
    simpl raisesFlag; rewrite ?orb_false_r.
  - unfold reload. destruct (isLoading _); reflexivity.
  - unfold reload. destruct (isLoading _); reflexivity.
  - destruct (runCall_effect (Sync m) w) as (_ & H & _). exact H.
  - destruct (runCall_effect (Async m) w) as (_ & H & _). exact H.
  - destruct (rulesArrive_settles caller res now (withPending (before ++ rest) w))
      as (x & w' & -> & Hd & _).
    simpl. rewrite Hd.
    destruct caller, res; simpl; rewrite ?orb_true_r, ?orb_false_r; reflexivity.
  - unfold timerFires. destruct (isLoading _); simpl; [reflexivity|].
    rewrite ensured_after. reflexivity.
Qed.

Lemma Run_flag w ts v :
  Run w ts v ->
  isInitialized (detector v) = isInitialized (detector w) || existsb raisesFlag ts.
Proof.
  induction 1 as [|u t u' ts u'' S _ IH]; simpl; [rewrite orb_false_r; reflexivity|].
  rewrite IH, (TurnStep_flag _ _ _ S), orb_assoc. reflexivity.
Qed.

Lemma awaiting_unique (before rest : list Task) caller x :
  List.length (List.filter isAwaitingRules (before ++ AwaitingRules caller :: rest)) = 1 ->
  In (AwaitingRules x) (before ++ AwaitingRules caller :: rest) ->
  x = caller.
Proof.
  rewrite List.filter_app, List.length_app. simpl. intros Hlen Hin.
  assert (Hnone : forall l : list Task,
             List.length (List.filter isAwaitingRules l) = 0 -> ~ In (AwaitingRules x) l).
  { intros l Hl Hx. apply List.length_zero_iff_nil in Hl.
    assert (Hf : In (AwaitingRules x) (List.filter isAwaitingRules l))
      by (apply List.filter_In; auto).
    rewrite Hl in Hf. exact Hf. }
  apply in_app_or in Hin as [Hin|[Hin|Hin]].
  - exfalso. apply (Hnone before); [lia | exact Hin].
  - congruence.
  - exfalso. apply (Hnone rest); [lia | exact Hin].
Qed.

Lemma TurnStep_ensure_started w t w' :
  Reachable w ->
  TurnStep w t w' ->
  isInitialized (detector w) = true \/
    (isLoading (detector w) = true /\ ensureStartedReload w) ->
  isInitialized (detector w') = true \/
    (isLoading (detector w') = true /\ ensureStartedReload w').
Proof.
  intros Hr S [Hi|[Hl (k & Hk)]].
  { left. rewrite (TurnStep_flag _ _ _ S), Hi. reflexivity. }
  destruct (isInitialized (detector w)) eqn:Hi.
  { left. rewrite (TurnStep_flag _ _ _ S), Hi. reflexivity. }
  assert (Hl' := TurnStep_loading _ _ _ S Hl).
  destruct S as [w|w|m w|m w|w caller res now before rest Hp|w c before rest Hp].
  - right. split; [exact Hl'|]. exists k. unfold reload. rewrite Hl. exact Hk.
  - right. split; [exact Hl'|]. exists k. unfold reload. rewrite Hl. exact Hk.
  - right. split; [exact Hl'|]. exists k. rewrite detect_world, Hi.
    unfold ensureInitialized. rewrite Hi, Hl. simpl. apply in_or_app. left. exact Hk.
  - right. split; [exact Hl'|]. exists k.
    destruct (detectAsync_after m w) as [-> | ->]; [exact Hk|].
    unfold ensureInitialized. rewrite Hi, Hl. simpl. apply in_or_app. left. exact Hk.
  - left. destruct (Reachable_Invariant w Hr) as (Hf & _).
    unfold fetchesInFlight in Hf. rewrite Hl, Hp in Hf. rewrite Hp in Hk.
    assert (Ec := awaiting_unique _ _ _ _ Hf Hk). subst caller.
    destruct (rulesArrive_settles (ByEnsure k) res now (withPending (before ++ rest) w))
      as (x & w' & -> & Hd & _).
    simpl. rewrite Hd. reflexivity.
  - right. split; [exact Hl'|]. exists k. unfold timerFires. simpl. rewrite Hl. simpl.
    rewrite Hp in Hk. apply in_or_app. left.
    apply in_app_or in Hk as [Hk|[Hk|Hk]]; [| discriminate Hk |]; apply in_or_app; auto.
Qed.

Lemma Run_ensure_started w ts v :
  Run w ts v ->
  Reachable w ->
  isLoading (detector w) = true -> ensureStartedReload w ->
  isLoading (detector v) = false ->
  isInitialized (detector v) = true.
Proof.
  intros R Hr Hl Hk.
  assert (H : isInitialized (detector v) = true \/
              (isLoading (detector v) = true /\ ensureStartedReload v)).
  { assert (H0 : isInitialized (detector w) = true \/
                 (isLoading (detector w) = true /\ ensureStartedReload w)) by auto.
    clear Hl Hk. induction R as [|u t u' ts u'' S _ IH]; [exact H0|].
    apply IH.
    - eapply Reachable_step; [exact Hr | eapply TurnStep_Step, S].
    - eapply TurnStep_ensure_started; eassumption. }
  intros Hv. destruct H as [H|[H _]]; [exact H | congruence].
Qed.

(** C9 (amended). Take an engine that is not initialised, in any world it
    can be in.  If no reload is running, [ensureInitialized] starts the one
    reload (one store fetch) and waits for it; when that fetch settles,
    with rules or with a failure, the call returns with the initialised
    flag up, and every later call returns at once without fetching.  If a
    reload is running, the call issues no fetch and polls: a timer that
    finds the loading flag up re-arms, a timer that finds it down makes the
    call return, leaving the world as it is, so the call itself does not set
    the flag.  Over any run of turns from the call on, the flag is up
    exactly when some fetch that settled in the run delivered rules or
    belonged to a reload that [ensureInitialized] had started; in
    particular, when the reload found running had been started by
    [ensureInitialized], the flag is up in every later world in which the
    loading flag is down, hence whenever the waiting call returns.  On an
    initialised engine the call returns at once and the world is
    untouched. *)
Theorem ensureInitialized_marks_initialized c res now w w1 :
  Reachable w ->
  isInitialized (detector w) = false ->
  (isLoading (detector w) = false ->
     ensureInitialized c w = Suspended (after (reload (ByEnsure c) w)) /\
     storeFetches (after (ensureInitialized c w)) = S (storeFetches w) /\
     pending (after (ensureInitialized c w)) =
       (pending w ++ [AwaitingRules (ByEnsure c)])%list /\
     exists r w2,
       rulesArrive (ByEnsure c) res now w1 = Resolved r w2 /\
       isInitialized (detector w2) = true /\
       storeFetches w2 = storeFetches w1 /\
       forall c', ensureInitialized c' w2 = Resolved tt w2) /\
  (isLoading (detector w) = true ->
     ensureInitialized c w = Suspended (park (Polling c) w) /\
     storeFetches (after (ensureInitialized c w)) = storeFetches w /\
     detector (after (ensureInitialized c w)) = detector w) /\
  (forall v, isLoading (detector v) = true ->
             timerFires c v = Suspended (park (Polling c) v)) /\
  (forall v, isLoading (detector v) = false ->
             exists r, timerFires c v = Resolved r v) /\
  (forall ts v, Run w ts v ->
                isInitialized (detector v) = existsb raisesFlag ts) /\
  (isLoading (detector w) = true -> ensureStartedReload w ->
   forall ts v, Run w ts v -> isLoading (detector v) = false ->
                isInitialized (detector v) = true) /\
  (forall w' c', isInitialized (detector w') = true ->
                 ensureInitialized c' w' = Resolved tt w').
Proof.
  intros Hr Hi.
  assert (Hready : forall w' c', isInitialized (detector w') = true ->
                                 ensureInitialized c' w' = Resolved tt w').
  { intros w' c' H. unfold ensureInitialized. rewrite H. reflexivity. }
  split.
  { intros Hl.
    destruct (ensureInitialized_cases c w) as [[E _]|[(_ & E & _)|(_ & _ & E)]];
      [congruence..|].
    split; [exact E|]. rewrite E. unfold reload. rewrite Hl. simpl.
    split; [reflexivity|]. split; [reflexivity|].
    destruct (rulesArrive_settles (ByEnsure c) res now w1)
      as (r & w2 & Hs & Hd & _ & _ & Hf).
    exists r, w2. split; [exact Hs|].
    assert (H2 : isInitialized (detector w2) = true) by (rewrite Hd; reflexivity).
    auto. }
  split.
  { intros Hl. unfold ensureInitialized. rewrite Hi, Hl. auto. }
  split.
  { intros v Hv. unfold timerFires. rewrite Hv. reflexivity. }
  split.
  { intros v Hv. unfold timerFires. rewrite Hv. destruct c; eexists; reflexivity. }
  split.
  { intros ts v R. rewrite (Run_flag _ _ _ R), Hi. reflexivity. }
  split; [|exact Hready].
  intros Hl Hk ts v R. apply (Run_ensure_started _ _ _ R Hr Hl Hk).
Qed.

End Engine.

(** * The properties on concrete rule sets

    Each statement below runs a theorem of the previous part on the small
    pattern engine and one of the example rule sets. *)

Lemma tier_priority_witness :
  Reachable literalScreen literalRegExp (mixedWorld literalScreen literalRegExp) /\
  "Connection TIMEOUT occurred" <> EmptyString /\
  In timeoutEntry (containsPatterns (detector (mixedWorld literalScreen literalRegExp))) /\
  includes (toLowerCase "Connection TIMEOUT occurred") (ContainsPattern.text timeoutEntry)
    = true /\
  In timingEntry (regexPatterns (detector (mixedWorld literalScreen literalRegExp))) /\
  test (RegexPattern.pattern timingEntry) "Connection TIMEOUT occurred" = true /\
  exists res,
    detectAsync (Some "Connection TIMEOUT occurred") (mixedWorld literalScreen literalRegExp)
      = Resolved res (mixedWorld literalScreen literalRegExp) /\
    detect (Some "Connection TIMEOUT occurred") (mixedWorld literalScreen literalRegExp)
      = (mixedWorld literalScreen literalRegExp, res) /\
    matched res = true /\ matchType res = Some "contains".
Proof.
  assert (Hr : Reachable literalScreen literalRegExp (mixedWorld literalScreen literalRegExp))
    by apply reloaded_Reachable.
  assert (Hm : "Connection TIMEOUT occurred" <> EmptyString) by discriminate.
  assert (Hc : In timeoutEntry
                 (containsPatterns (detector (mixedWorld literalScreen literalRegExp))))
    by (left; reflexivity).
  assert (Hcm : includes (toLowerCase "Connection TIMEOUT occurred")
                  (ContainsPattern.text timeoutEntry) = true) by reflexivity.
  assert (Hx : In timingEntry
                 (regexPatterns (detector (mixedWorld literalScreen literalRegExp))))
    by (left; reflexivity).
  assert (Hxm : test (RegexPattern.pattern timingEntry) "Connection TIMEOUT occurred" = true)
    by reflexivity.
  repeat (split; [assumption|]).
  exact (proj1 (tier_priority literalScreen literalRegExp _ _ _ _ Hr Hm Hc Hcm Hx Hxm)).
Defined.

Lemma failed_reload_keeps_snapshot_witness :
  isLoading (detector (mixedWorld literalScreen literalRegExp)) = false /\
  exists w2,
    reload_resumed literalScreen literalRegExp (Failed "connection refused") 9
      (after (reload ByApi (mixedWorld literalScreen literalRegExp))) = Normal w2 /\
    getStats (detector w2) = getStats (detector (mixedWorld literalScreen literalRegExp)) /\
    totalCount (getStats (detector w2)) = 3.
Proof.
  split; [reflexivity|].
  destruct (failed_reload_keeps_snapshot literalScreen literalRegExp ByApi
              "connection refused" 9 (mixedWorld literalScreen literalRegExp) eq_refl)
    as (_ & (w2 & Hr & _ & _ & _ & _ & Hd & Hs & _) & _).
  exists w2. split; [exact Hr|]. split; [exact Hs|].
  rewrite Hs. vm_compute. reflexivity.
Defined.

Lemma single_reload_in_flight_witness :
  Reachable literalScreen literalRegExp coldEvent /\
  isLoading (detector coldEvent) = true /\
  fetchesInFlight coldEvent = 1 /\
  reload ByApi coldEvent = Resolved tt (log Warn_ReloadInProgress coldEvent) /\
  storeFetches (after (reload ByApi coldEvent)) = 1.
Proof.
  assert (Hr : Reachable literalScreen literalRegExp coldEvent).
  { apply (Reachable_step literalScreen literalRegExp initialWorld); [constructor|].
    apply Step_event. }
  destruct (single_reload_in_flight literalScreen literalRegExp coldEvent ByEvent ByApi
              tableMissing 0 Hr) as (_ & Hf & Hbusy & _).
  destruct (Hbusy eq_refl) as (H1 & H2 & _).
  split; [exact Hr|]. split; [reflexivity|].
  split; [exact Hf|]. split; [exact H1 | exact H2].
Defined.

Lemma blank_message_short_circuits_witness :
  isBlank (Some EmptyString) = true /\
  detectAsync (Some EmptyString) initialWorld = Resolved notMatched initialWorld /\
  snd (detect (Some EmptyString) (memoryWorld literalScreen literalRegExp)) = notMatched /\
  storeFetches (fst (detect (Some EmptyString) (memoryWorld literalScreen literalRegExp))) = 1.
Proof.
  split; [reflexivity|].
  destruct (blank_message_short_circuits (Some EmptyString) initialWorld eq_refl)
    as (H1 & _).
  destruct (blank_message_short_circuits (Some EmptyString)
              (memoryWorld literalScreen literalRegExp) eq_refl)
    as (_ & H2 & _ & H3 & _).
  split; [exact H1|]. split; [exact H2 | exact H3].
Defined.

Lemma unsafe_regex_rule_skipped_witness :
  ErrorRule.matchType nestedRule = "regex" /\
  (literalScreen (ErrorRule.pattern nestedRule) = false \/
   literalRegExp (ErrorRule.pattern nestedRule) = None) /\
  regexPatterns
    (detector (after (rulesArrive literalScreen literalRegExp ByApi
                        (Rules ([] ++ nestedRule :: [rule "regex" "time" "timing"]))
                        5 initialWorld)))
  = [timingEntry] /\
  skippedRedosCount
    (loadRules literalScreen literalRegExp
       ([] ++ nestedRule :: [rule "regex" "time" "timing"])
       {| loopWorld := initialWorld; validRegexCount := 0; skippedRedosCount := 0 |})
  = 1.
Proof.
  assert (Hs : literalScreen (ErrorRule.pattern nestedRule) = false) by reflexivity.
  split; [reflexivity|]. split; [left; exact Hs|].
  destruct (unsafe_regex_rule_skipped literalScreen literalRegExp
              [] nestedRule [rule "regex" "time" "timing"] 5 initialWorld
              {| loopWorld := initialWorld; validRegexCount := 0; skippedRedosCount := 0 |}
              eq_refl (or_introl Hs))
    as (_ & _ & Hcount & _ & _ & Hregex & _).
  split.
  - rewrite Hregex. reflexivity.
  - rewrite (proj2 (Hcount Hs)). reflexivity.
Defined.

Lemma exact_tier_semantics_witness :
  Reachable literalScreen literalRegExp (memoryWorld literalScreen literalRegExp) /\
  ErrorRule.matchType paddedRule = "exact" /\
  startsWithWhiteSpace (ErrorRule.pattern paddedRule)
    || endsWithWhiteSpace (ErrorRule.pattern paddedRule) = true /\
  trim (toLowerCase "Out of memory ") <> toLowerCase (ErrorRule.pattern paddedRule) /\
  detect (Some "  Out Of Memory  ") (reloaded literalScreen literalRegExp
                                       (Rules memoryRules) 5 initialWorld) =
    (reloaded literalScreen literalRegExp (Rules memoryRules) 5 initialWorld,
     {| matched := true; category := Some "oom";
        pattern := Some "out of memory"; matchType := Some "exact" |}).
Proof.
  assert (Hr : Reachable literalScreen literalRegExp (memoryWorld literalScreen literalRegExp))
    by apply reloaded_Reachable.
  destruct (exact_tier_semantics literalScreen literalRegExp
              (memoryWorld literalScreen literalRegExp) paddedRule "Out of memory "
              {| loopWorld := initialWorld; validRegexCount := 0; skippedRedosCount := 0 |}
              5 Hr eq_refl eq_refl)
    as (_ & _ & Hmiss & _ & _ & Hex & _).
  split; [exact Hr|]. split; [reflexivity|]. split; [reflexivity|].
  split; [exact Hmiss | exact Hex].
Defined.


Lemma detect_agrees_with_detectAsync_witness :
  isInitialized (detector (mixedWorld literalScreen literalRegExp)) = true /\
  isLoading (detector (mixedWorld literalScreen literalRegExp)) = false /\
  detectAsync (Some "a long time") (mixedWorld literalScreen literalRegExp) =
    Resolved (snd (detect (Some "a long time") (mixedWorld literalScreen literalRegExp)))
      (mixedWorld literalScreen literalRegExp) /\
  snd (detect (Some "a long time") (mixedWorld literalScreen literalRegExp)) =
    regexResult timingEntry /\
  snd (detect (Some "a long time") initialWorld) = notMatched.
Proof.
  destruct (detect_agrees_with_detectAsync (mixedWorld literalScreen literalRegExp)
              (Some "a long time") eq_refl eq_refl) as (H1 & _ & H3).
  split; [reflexivity|]. split; [reflexivity|]. split; [exact H1|].
  split; [vm_compute; reflexivity|].
  exact (H3 initialWorld (Some "a long time") eq_refl).
Defined.

Lemma ensureInitialized_marks_initialized_witness :
  Reachable literalScreen literalRegExp coldLookup /\
  isInitialized (detector coldLookup) = false /\
  isLoading (detector coldLookup) = true /\
  ensureStartedReload coldLookup /\
  ensureInitialized (ByDetectAsync "quota") coldLookup
    = Suspended (park (Polling (ByDetectAsync "quota")) coldLookup) /\
  isInitialized
    (detector (after (rulesArrive literalScreen literalRegExp
                        (ByEnsure (ByDetectAsync "timeout")) tableMissing 0
                        (withPending [Polling (ByDetectAsync "quota")] coldLookupWaiting))))
  = true.
Proof.
  assert (Hr : Reachable literalScreen literalRegExp coldLookup).
  { apply (Reachable_step literalScreen literalRegExp initialWorld); [constructor|].
    apply (Step_detectAsync literalScreen literalRegExp (Some "timeout") initialWorld). }
  assert (Hk : ensureStartedReload coldLookup)
    by (exists (ByDetectAsync "timeout"); left; reflexivity).
  destruct (ensureInitialized_marks_initialized literalScreen literalRegExp
              (ByDetectAsync "quota") tableMissing 0 coldLookup initialWorld Hr eq_refl)
    as (_ & Hwait & _ & _ & _ & Hstarted & _).
  split; [exact Hr|]. split; [reflexivity|]. split; [reflexivity|]. split; [exact Hk|].
  split; [exact (proj1 (Hwait eq_refl))|].
  apply (Hstarted eq_refl Hk
           [DetectAsyncTurn (Some "quota");
            SettleTurn (ByEnsure (ByDetectAsync "timeout")) tableMissing 0]);
    [|reflexivity].
  apply (Run_cons literalScreen literalRegExp coldLookup _ coldLookupWaiting).
  - apply (TurnStep_detectAsync literalScreen literalRegExp (Some "quota") coldLookup).
  - eapply Run_cons; [|apply Run_nil].
    apply (TurnStep_rules literalScreen literalRegExp coldLookupWaiting
             (ByEnsure (ByDetectAsync "timeout")) tableMissing 0
             [] [Polling (ByDetectAsync "quota")]).
    reflexivity.
Defined.

(** ** Where the engine departs from the expected behaviour *)

(** C4, as first stated, fails: on a fresh engine the synchronous
    [detect] of an empty (or absent) message returns [{ matched: false }]
    only after having called [ensureInitialized], which issues a store
    fetch. *)
Lemma blank_detect_starts_fetch :
  isBlank (Some EmptyString) = true /\
  isBlank None = true /\
  snd (detect (Some EmptyString) initialWorld) = notMatched /\
  storeFetches (fst (detect (Some EmptyString) initialWorld)) <> storeFetches initialWorld /\
  storeFetches (fst (detect None initialWorld)) <> storeFetches initialWorld /\
  pending (fst (detect (Some EmptyString) initialWorld)) = [AwaitingRules (ByEnsure ByDetect)].
Proof.
  split; [reflexivity|]. split; [reflexivity|]. split; [reflexivity|].
  split; [discriminate|]. split; [discriminate | reflexivity].
Qed.

(** C9, as first stated, fails: on an engine that is not initialised but
    on which a reload started by the change listener is running,
    [ensureInitialized] waits; when that reload's fetch fails, the wait
    ends and the call returns with the initialised flag still down, and the
    next lookup fetches again. *)
Lemma waiting_caller_returns_uninitialized :
  Reachable literalScreen literalRegExp (coldEventFailed literalScreen literalRegExp) /\
  isInitialized (detector coldEvent) = false /\
  ensureInitialized (ByDetectAsync "timeout") coldEvent = Suspended coldEventWaiting /\
  pending (coldEventFailed literalScreen literalRegExp) = [Polling (ByDetectAsync "timeout")] /\
  timerFires (ByDetectAsync "timeout")
    (withPending [] (coldEventFailed literalScreen literalRegExp))
  = Resolved (Some notMatched) (withPending [] (coldEventFailed literalScreen literalRegExp)) /\
  isInitialized (detector (coldEventFailed literalScreen literalRegExp)) <> true /\
  storeFetches (after (detectAsync (Some "timeout")
                         (withPending [] (coldEventFailed literalScreen literalRegExp))))
  = S (storeFetches (coldEventFailed literalScreen literalRegExp)).
Proof.
  split; [apply coldEventFailed_Reachable|].
  split; [reflexivity|]. split; [reflexivity|]. split; [reflexivity|].
  split; [reflexivity|]. split; [discriminate | reflexivity].
Qed.

(** ** The further properties on concrete rule sets *)

Lemma empty_engine_matches_nothing_witness :
  isEmpty (detector initialWorld) = true /\
  totalCount (getStats (detector initialWorld)) = 0 /\
  snd (detect (Some "out of memory") initialWorld) = notMatched /\
  detectAsync (Some "out of memory") initialWorld
    = Suspended (after (ensureInitialized (ByDetectAsync "out of memory") initialWorld)).
Proof.
  destruct (empty_engine_matches_nothing initialWorld (Some "out of memory") eq_refl)
    as (_ & _ & _ & Ht & Hd & Ha & _).
  split; [reflexivity|]. split; [exact Ht|]. split; [exact Hd | exact Ha].
Defined.

Lemma lower_tiers_ignore_case_witness :
  isInitialized (detector (mixedWorld literalScreen literalRegExp)) = true /\
  "Connection TIMEOUT occurred" <> EmptyString /\
  toLowerCase "connection Timeout OCCURRED" = toLowerCase "Connection TIMEOUT occurred" /\
  matchType (snd (detect (Some "Connection TIMEOUT occurred")
                    (mixedWorld literalScreen literalRegExp))) = Some "contains" /\
  detect (Some "connection Timeout OCCURRED") (mixedWorld literalScreen literalRegExp) =
  detect (Some "Connection TIMEOUT occurred") (mixedWorld literalScreen literalRegExp).
Proof.
  assert (Hm : "Connection TIMEOUT occurred" <> EmptyString) by discriminate.
  assert (Ht : matchType (snd (detect (Some "Connection TIMEOUT occurred")
                                 (mixedWorld literalScreen literalRegExp)))
               = Some "contains") by reflexivity.
  split; [reflexivity|]. split; [exact Hm|]. split; [reflexivity|]. split; [exact Ht|].
  exact (proj1 (lower_tiers_ignore_case (mixedWorld literalScreen literalRegExp)
                  "Connection TIMEOUT occurred" "connection Timeout OCCURRED"
                  eq_refl Hm eq_refl (or_introl Ht))).
Defined.

Lemma empty_contains_pattern_matches_all_witness :
  In (rule "contains" "" "anything") catchAllRules /\
  "out of memory" <> EmptyString /\
  matchType (snd (detect (Some "out of memory")
                    (after (rulesArrive literalScreen literalRegExp ByApi
                              (Rules catchAllRules) 5 initialWorld))))
  = Some "contains" /\
  category (snd (detect (Some "out of memory")
                   (after (rulesArrive literalScreen literalRegExp ByApi
                             (Rules catchAllRules) 5 initialWorld))))
  = Some "anything".
Proof.
  assert (Hin : In (rule "contains" "" "anything") catchAllRules)
    by (right; left; reflexivity).
  assert (Hm : "out of memory" <> EmptyString) by discriminate.
  destruct (empty_contains_pattern_matches_all literalScreen literalRegExp
              catchAllRules 5 ByApi initialWorld (rule "contains" "" "anything")
              "out of memory" Hin eq_refl eq_refl Hm) as (_ & Ht & _).
  split; [exact Hin|]. split; [exact Hm|]. split; [exact Ht | reflexivity].
Defined.

Lemma containment_survives_extension_witness :
  isInitialized (detector (mixedWorld literalScreen literalRegExp)) = true /\
  "Timeout" <> EmptyString /\
  includes (toLowerCase "Read TIMEOUT (30s)") (toLowerCase "Timeout") = true /\
  matchType (snd (detect (Some "Timeout") (mixedWorld literalScreen literalRegExp)))
  = Some "contains" /\
  matchType (snd (detect (Some "Read TIMEOUT (30s)")
                    (mixedWorld literalScreen literalRegExp)))
  = Some "contains".
Proof.
  assert (Hm : "Timeout" <> EmptyString) by discriminate.
  split; [reflexivity|]. split; [exact Hm|]. split; [reflexivity|]. split; [reflexivity|].
  exact (proj1 (containment_survives_extension (mixedWorld literalScreen literalRegExp)
                  "Timeout" "Read TIMEOUT (30s)" eq_refl Hm eq_refl eq_refl)).
Defined.

Lemma exact_match_ignores_padding_witness :
  isInitialized (detector (memoryWorld literalScreen literalRegExp)) = true /\
  "Out Of Memory" <> EmptyString /\
  allWhiteSpace "  " = true /\
  allWhiteSpace (String (ascii_of_nat 9) " ") = true /\
  matchType (snd (detect (Some "Out Of Memory") (memoryWorld literalScreen literalRegExp)))
  = Some "exact" /\
  detect (Some ("  " +:+ "Out Of Memory" +:+ String (ascii_of_nat 9) " "))
    (memoryWorld literalScreen literalRegExp)
  = detect (Some "Out Of Memory") (memoryWorld literalScreen literalRegExp).
Proof.
  assert (Hm : "Out Of Memory" <> EmptyString) by discriminate.
  split; [reflexivity|]. split; [exact Hm|]. split; [reflexivity|].
  split; [reflexivity|]. split; [reflexivity|].
  exact (proj1 (exact_match_ignores_padding (memoryWorld literalScreen literalRegExp)
                  "  " "Out Of Memory" (String (ascii_of_nat 9) " ")
                  eq_refl Hm eq_refl eq_refl eq_refl eq_refl)).
Defined.

Lemma exact_last_rule_wins_witness :
  duplicateRules =
    ([rule "exact" "Out Of Memory" "first"; rule "contains" "quota" "limits"]
     ++ rule "exact" "out of MEMORY" "second" :: [])%list /\
  ErrorRule.matchType (rule "exact" "out of MEMORY" "second") = "exact" /\
  Forall (fun r' => ErrorRule.matchType r' = "exact" ->
                    toLowerCase (ErrorRule.pattern r') <> toLowerCase "out of MEMORY") [] /\
  " OUT of memory " <> EmptyString /\
  trim (toLowerCase " OUT of memory ") = toLowerCase "out of MEMORY" /\
  containsLoop (toLowerCase " OUT of memory ")
    (containsPatterns
       (detector (after (rulesArrive literalScreen literalRegExp ByEvent
                           (Rules duplicateRules) 5 initialWorld)))) = None /\
  snd (detect (Some " OUT of memory ")
         (after (rulesArrive literalScreen literalRegExp ByEvent
                   (Rules duplicateRules) 5 initialWorld)))
  = {| matched := true; category := Some "second";
       pattern := Some "out of memory"; matchType := Some "exact" |}.
Proof.
  assert (Hm : " OUT of memory " <> EmptyString) by discriminate.
  destruct (exact_last_rule_wins literalScreen literalRegExp
              [rule "exact" "Out Of Memory" "first"; rule "contains" "quota" "limits"]
              (rule "exact" "out of MEMORY" "second") [] 5 ByEvent initialWorld
              " OUT of memory " eq_refl (List.Forall_nil _) Hm eq_refl eq_refl)
    as (_ & Hd & _).
  split; [reflexivity|]. split; [reflexivity|]. split; [constructor|].
  split; [exact Hm|]. split; [reflexivity|]. split; [reflexivity|].
  change duplicateRules
    with ([rule "exact" "Out Of Memory" "first"; rule "contains" "quota" "limits"]
          ++ rule "exact" "out of MEMORY" "second" :: [])%list.
  rewrite Hd. reflexivity.
Defined.

Lemma unknown_matchType_skipped_witness :
  ErrorRule.matchType (rule "Contains" "quota" "limits") <> "contains" /\
  ErrorRule.matchType (rule "Contains" "quota" "limits") <> "exact" /\
  ErrorRule.matchType (rule "Contains" "quota" "limits") <> "regex" /\
  detector (after (rulesArrive literalScreen literalRegExp ByApi
                     (Rules (memoryRules ++ rule "Contains" "quota" "limits" :: errorRules))
                     5 initialWorld))
  = detector (after (rulesArrive literalScreen literalRegExp ByApi
                       (Rules (memoryRules ++ errorRules)) 5 initialWorld)).
Proof.
  assert (H1 : ErrorRule.matchType (rule "Contains" "quota" "limits") <> "contains")
    by discriminate.
  assert (H2 : ErrorRule.matchType (rule "Contains" "quota" "limits") <> "exact")
    by discriminate.
  assert (H3 : ErrorRule.matchType (rule "Contains" "quota" "limits") <> "regex")
    by discriminate.
  split; [exact H1|]. split; [exact H2|]. split; [exact H3|].
  exact (proj2 (unknown_matchType_skipped literalScreen literalRegExp memoryRules
                  (rule "Contains" "quota" "limits") errorRules 5 ByApi initialWorld
                  {| loopWorld := initialWorld; validRegexCount := 0;
                     skippedRedosCount := 0 |} H1 H2 H3)).
Defined.

Lemma match_comes_from_a_rule_witness :
  matched (snd (detect (Some "a long time")
                  (after (rulesArrive literalScreen literalRegExp ByApi
                            (Rules mixedRules) 5 initialWorld)))) = true /\
  exists r,
    In r mixedRules /\
    category (snd (detect (Some "a long time")
                     (after (rulesArrive literalScreen literalRegExp ByApi
                               (Rules mixedRules) 5 initialWorld))))
    = Some (ErrorRule.category r).
Proof.
  split; [reflexivity|].
  destruct (match_comes_from_a_rule literalScreen literalRegExp mixedRules 5 ByApi
              initialWorld (Some "a long time") eq_refl) as (r & Hin & Hc & _).
  exists r. split; [exact Hin | exact Hc].
Defined.

Lemma snapshot_changes_only_on_success_witness :
  TurnStep literalScreen literalRegExp (after (reload ByApi initialWorld))
    (SettleTurn ByApi (Rules memoryRules) 5) (memoryWorld literalScreen literalRegExp) /\
  snapshot (detector (memoryWorld literalScreen literalRegExp)) =
    (omap (regexEntry literalScreen literalRegExp) memoryRules,
     omap containsEntry memoryRules, fold_left bindExact memoryRules ∅, 5%Z) /\
  isInitialized (detector (memoryWorld literalScreen literalRegExp)) = true /\
  isLoading (detector (memoryWorld literalScreen literalRegExp)) = false.
Proof.
  assert (Hs : TurnStep literalScreen literalRegExp (after (reload ByApi initialWorld))
                 (SettleTurn ByApi (Rules memoryRules) 5)
                 (memoryWorld literalScreen literalRegExp)).
  { apply (TurnStep_rules literalScreen literalRegExp (after (reload ByApi initialWorld))
             ByApi (Rules memoryRules) 5 [] []). reflexivity. }
  split; [exact Hs|].
  exact (snapshot_changes_only_on_success literalScreen literalRegExp _ _ _ Hs).
Defined.

Lemma turns_are_monotone_witness :
  Step literalScreen literalRegExp coldEvent coldEventWaiting /\
  storeFetches coldEvent <= storeFetches coldEventWaiting <= S (storeFetches coldEvent).
Proof.
  assert (Hs : Step literalScreen literalRegExp coldEvent coldEventWaiting)
    by apply (Step_detectAsync literalScreen literalRegExp (Some "timeout") coldEvent).
  split; [exact Hs|].
  exact (proj1 (proj2 (turns_are_monotone literalScreen literalRegExp _ _ Hs))).
Defined.

Lemma calls_never_reject_witness :
  Reachable literalScreen literalRegExp (coldEventFailed literalScreen literalRegExp) /\
  forallb (fun e => negb (isHandlerLog e))
    (logged (coldEventFailed literalScreen literalRegExp)) = true /\
  rejects (detectAsync (Some "timeout") (coldEventFailed literalScreen literalRegExp))
  = false.
Proof.
  assert (Hr := coldEventFailed_Reachable literalScreen literalRegExp).
  destruct (calls_never_reject literalScreen literalRegExp _ ByEvent ByDetect
              (Some "timeout") tableMissing 0 Hr) as (Hl & _ & _ & Hd & _).
  split; [exact Hr|]. split; [exact Hl | exact Hd].
Defined.

Lemma loading_flag_lowered_only_by_settlement_witness :
  Reachable literalScreen literalRegExp coldEvent /\
  isLoading (detector coldEvent) = true /\
  (exists before caller rest,
     pending coldEvent = (before ++ AwaitingRules caller :: rest)%list /\
     isLoading (detector (after (rulesArrive literalScreen literalRegExp caller
                                   tableMissing 0
                                   (withPending (before ++ rest) coldEvent)))) = false) /\
  isLoading (detector coldEventWaiting) = true.
Proof.
  assert (Hr : Reachable literalScreen literalRegExp coldEvent).
  { apply (Reachable_step literalScreen literalRegExp initialWorld); [constructor|].
    apply Step_event. }
  split; [exact Hr|]. split; [reflexivity|].
  destruct (loading_flag_lowered_only_by_settlement literalScreen literalRegExp
              coldEvent Hr eq_refl)
    as ((b & caller & r & Hp & H) & Hother & _).
  split.
  - exists b, caller, r. split; [exact Hp|].
    exact (proj1 (proj2 (H tableMissing 0%Z))).
  - exact (Hother (DetectAsyncTurn (Some "timeout")) coldEventWaiting
             (TurnStep_detectAsync literalScreen literalRegExp (Some "timeout") coldEvent)).
Defined.

Lemma deferred_lookup_agrees_with_detect_witness :
  Reachable literalScreen literalRegExp (mixedWorld literalScreen literalRegExp) /\
  "a long time" <> EmptyString /\
  isLoading (detector (mixedWorld literalScreen literalRegExp)) = false /\
  timerFires (ByDetectAsync "a long time") (mixedWorld literalScreen literalRegExp)
  = Resolved (Some (snd (detect (Some "a long time")
                           (mixedWorld literalScreen literalRegExp))))
      (mixedWorld literalScreen literalRegExp).
Proof.
  assert (Hr : Reachable literalScreen literalRegExp (mixedWorld literalScreen literalRegExp))
    by apply reloaded_Reachable.
  assert (Hm : "a long time" <> EmptyString) by discriminate.
  split; [exact Hr|]. split; [exact Hm|]. split; [reflexivity|].
  exact (proj1 (proj2 (deferred_lookup_agrees_with_detect literalScreen literalRegExp
                         (mixedWorld literalScreen literalRegExp) "a long time"
                         tableMissing 0 Hr Hm)) eq_refl).
Defined.
